(** * serverless-artillery: the script splitter of [lib/handler.js]

    A shallow embedding of the splitter and scheduler of [lib/handler.js]
    (phase geometry, phase and script splitting by length and by width, the
    validator and the orchestrating [run]) together with the properties
    stated about them.

    Conventions of the embedding.
    - JavaScript numbers are modelled exactly: the numeric fields of a phase
      and the settings are integers ([Z]); the quotients the code forms
      ([arrivalCount / duration], the ratio of a length split, the
      intersection abscissa) are rationals ([Q]).  [Math.round] is
      [floor (x + 1/2)], [Math.floor] and [Math.ceil] are [Qfloor] and
      [Qceiling].  On the integers a script can carry this agrees with
      IEEE doubles; [NaN] and the infinities are not modelled.
    - A phase is a JavaScript object used as a map from field names to
      numbers: [gmap string Z].  ['f' in phase] is [has f phase],
      [delete phase.f] is [delete f phase], [phase.f = v] is
      [<[f := v]> phase].
    - [JSON.parse(JSON.stringify(x))] is the identity on values; where the
      source keeps working on the original object instead of a copy the
      functions return the final state of that object as well.
    - Reading a field that the object lacks yields [undefined] in
      JavaScript; the embedding stops there with [UndefinedRead]. *)

From Stdlib Require Import ZArith QArith Qround Qminmax Qabs Lia Lqa.
From stdpp Require Import gmap strings list fin_maps.

Local Open Scope Z_scope.

(** ** Numbers *)

Definition Math_round (q : Q) : Z := Qfloor (q + (1 # 2))%Q.
Definition Math_floor (q : Q) : Z := Qfloor q.
Definition Math_ceil (q : Q) : Z := Qceiling q.

(** Truthiness of an optional number: [undefined] and [0] are falsy. *)
Definition truthy (o : option Z) : bool :=
  match o with
  | Some z => negb (z =? 0)
  | None => false
  end.

(** ** Results of fallible code *)

Inductive result (A : Type) : Type :=
  | Ok (a : A)
  | Throw (msg : string)
  | UndefinedRead (field : string)
  | OutOfFuel.

Arguments Ok {A} a.
Arguments Throw {A} msg.
Arguments UndefinedRead {A} field.
Arguments OutOfFuel {A}.

(** The error monad of [result], with stdpp's [x ← r; k] notation. *)
#[global] Instance result_ret : MRet result := fun A a => Ok a.
#[global] Instance result_bind : MBind result := fun A B k r =>
  match r with
  | Ok a => k a
  | Throw m => Throw m
  | UndefinedRead f => UndefinedRead f
  | OutOfFuel => OutOfFuel
  end.

(** ** Phases and scripts *)

Abbreviation phase := (gmap string Z).

Definition has (f : string) (p : phase) : bool :=
  match p !! f with
  | Some _ => true
  | None => false
  end.

(** [phase.f] read as a number. *)
Definition get (f : string) (p : phase) : result Z :=
  match p !! f with
  | Some v => Ok v
  | None => UndefinedRead f
  end.

(** The [_split] attribute: absent or falsy ([None]), a truthy value that
    is not an object, or an object of numeric overrides. *)
Inductive split_value : Type :=
  | SplitNotObject
  | SplitObject (o : gmap string Z).

(** [config_phases = None] stands for a script without [config] or whose
    [config.phases] is not an array. *)
Record script : Type := mkScript {
  _split : option split_value;
  config_phases : option (list phase);
  _genesis : option Z;
  _start : option Z;
  _trace : bool
}.

Definition phases (s : script) : list phase :=
  match config_phases s with
  | Some ps => ps
  | None => []
  end.

Definition set_phases (ps : list phase) (s : script) : script :=
  mkScript (_split s) (Some ps) (_genesis s) (_start s) (_trace s).

Definition set_genesis (g : option Z) (s : script) : script :=
  mkScript (_split s) (config_phases s) g (_start s) (_trace s).

Definition set_start (t : option Z) (s : script) : script :=
  mkScript (_split s) (config_phases s) (_genesis s) t (_trace s).

(** ** Settings *)

Module constants.
Definition CLOCK_DRIFT_THRESHOLD : Z := 250.
Definition MAX_SCRIPT_DURATION_IN_SECONDS : Z := 86400.
Definition MAX_SCRIPT_REQUESTS_PER_SECOND : Z := 5000.
Definition MAX_CHUNK_DURATION_IN_SECONDS : Z := 240.
Definition MAX_CHUNK_REQUESTS_PER_SECOND : Z := 25.
Definition TIME_BUFFER_IN_MILLISECONDS : Z := 15000.
End constants.

Record settings : Type := mkSettings {
  maxScriptDurationInSeconds : Z;
  maxScriptRequestsPerSecond : Z;
  maxChunkDurationInSeconds : Z;
  maxChunkRequestsPerSecond : Z;
  timeBufferInMilliseconds : Z
}.

(** [if (script._split.f) ret.f = script._split.f]: a truthy override
    replaces the default. *)
Definition override (o : gmap string Z) (f : string) (dflt : Z) : Z :=
  if truthy (o !! f) then default dflt (o !! f) else dflt.

Definition getSettings (s : script) : settings :=
  let o := match _split s with
           | Some (SplitObject o) => o
           | _ => ∅
           end in
  {| maxScriptDurationInSeconds :=
       override o "maxScriptDurationInSeconds" constants.MAX_SCRIPT_DURATION_IN_SECONDS;
     maxScriptRequestsPerSecond :=
       override o "maxScriptRequestsPerSecond" constants.MAX_SCRIPT_REQUESTS_PER_SECOND;
     maxChunkDurationInSeconds :=
       override o "maxChunkDurationInSeconds" constants.MAX_CHUNK_DURATION_IN_SECONDS;
     maxChunkRequestsPerSecond :=
       override o "maxChunkRequestsPerSecond" constants.MAX_CHUNK_REQUESTS_PER_SECOND;
     timeBufferInMilliseconds :=
       override o "timeBufferInMilliseconds" constants.TIME_BUFFER_IN_MILLISECONDS |}.

(** ** Phase geometry *)

Definition phaseLength (p : phase) : Z :=
  match p !! "duration" with
  | Some d => d
  | None =>
      match p !! "pause" with
      | Some z => z
      | None => -1
      end
  end.

(** The [for] loop of [scriptLength]: [i] is the index, [ret] the running
    total; an invalid phase overwrites the total with [-1 * i] and breaks. *)
Fixpoint scriptLength_loop (ps : list phase) (i ret : Z) : Z :=
  match ps with
  | [] => ret
  | p :: rest =>
      let phaseLength := phaseLength p in
      if phaseLength <? 0 then -1 * i
      else scriptLength_loop rest (i + 1) (ret + phaseLength)
  end.

Definition scriptLength (s : script) : Z := scriptLength_loop (phases s) 0 0.

Definition phaseWidth (p : phase) : Q :=
  match p !! "rampTo", p !! "arrivalRate" with
  | Some r, Some a => inject_Z (Z.max a r)
  | _, Some a => inject_Z a
  | _, None =>
      match p !! "arrivalCount", p !! "duration" with
      | Some n, Some d => (inject_Z n / inject_Z d)%Q
      | _, _ => if has "pause" p then 0%Q else (-1)%Q
      end
  end.

Fixpoint scriptWidth_loop (ps : list phase) (i : Z) (ret : Q) : Q :=
  match ps with
  | [] => ret
  | p :: rest =>
      let phaseWidth := phaseWidth p in
      if Qlt_le_dec phaseWidth 0 then inject_Z (-1 * i)
      else scriptWidth_loop rest (i + 1) (Qmax ret phaseWidth)
  end.

Definition scriptWidth (s : script) : Q := scriptWidth_loop (phases s) 0 0%Q.

(** ** Validator *)

(** The messages [validScript] hands to the callback.  [observed] is the
    phase the message prints: [JSON.stringify(phases[index])]. *)
Inductive message : Type :=
  | SplitMustBeObject
  | BadMaxChunkDuration
  | BadMaxScriptDuration
  | BadMaxScriptRequestsPerSecond
  | NoPhases
  | InvalidDuration (observed : option phase)
  | TotalDurationExceeds (limit : Z)
  | InvalidRequestsPerSecond (observed : option phase)
  | RequestsPerSecondExceed (limit : Z).

(** [Number.isInteger(v) && v > 0 && v <= limit]; every [Z] is an integer. *)
Definition within (v limit : Z) : bool := (0 <? v) && (v <=? limit).

(** [arr[q]] for a number [q] that is an index. *)
Definition at_index (ps : list phase) (q : Q) : option phase :=
  ps !! Z.to_nat (Qfloor q).

(** [validScript] returns its verdict and the calls it made to the
    callback. *)
Definition validScript (s : script) : bool * list message :=
  let settings := getSettings s in
  match _split s with
  | Some SplitNotObject => (false, [SplitMustBeObject])
  | _ =>
      if negb (maxChunkDurationInSeconds settings =? 0)
         && negb (within (maxChunkDurationInSeconds settings)
                         constants.MAX_CHUNK_DURATION_IN_SECONDS)
      then (false, [BadMaxChunkDuration])
      else if negb (maxScriptDurationInSeconds settings =? 0)
         && negb (within (maxScriptDurationInSeconds settings)
                         constants.MAX_SCRIPT_DURATION_IN_SECONDS)
      then (false, [BadMaxScriptDuration])
      else if negb (maxScriptRequestsPerSecond settings =? 0)
         && negb (within (maxScriptRequestsPerSecond settings)
                         constants.MAX_SCRIPT_REQUESTS_PER_SECOND)
      then (false, [BadMaxScriptRequestsPerSecond])
      else
        match config_phases s with
        | None | Some [] => (false, [NoPhases])
        | Some ps =>
            let scriptLength := scriptLength s in
            let scriptWidth := scriptWidth s in
            if scriptLength <? 0
            then (false, [InvalidDuration (at_index ps (inject_Z (scriptLength * -1)))])
            else if maxScriptDurationInSeconds settings <? scriptLength
            then (false, [TotalDurationExceeds (maxScriptDurationInSeconds settings)])
            else if Qlt_le_dec scriptWidth 0
            then (false, [InvalidRequestsPerSecond (at_index ps (scriptWidth * -1)%Q)])
            else if Qlt_le_dec (inject_Z (maxScriptRequestsPerSecond settings)) scriptWidth
            then (false, [RequestsPerSecondExceed (maxScriptRequestsPerSecond settings)])
            else (true, [])
        end
  end.

(** ** Splitting by length *)

(** [chunk] is a copy of the phase, [remainder] the phase itself: the
    second component is also the state in which the call leaves its
    argument.  The caller passes [0 < chunkSize < phaseLength phase]. *)
Definition splitPhaseByLength (p : phase) (chunkSize : Z) : phase * phase :=
  match p !! "duration" with
  | Some d =>
      let ratio := (inject_Z chunkSize / inject_Z d)%Q in
      let '(chunk, remainder) :=
        match p !! "rampTo", p !! "arrivalRate" with
        | Some r, Some a =>
            let diff := r - a in
            let rampTo := Math_round (inject_Z a + inject_Z diff * ratio)%Q in
            (<["rampTo" := rampTo]> p, <["arrivalRate" := rampTo]> p)
        | _, _ =>
            match p !! "arrivalCount" with
            | Some n =>
                let arrivalCount := Math_round (inject_Z n * ratio)%Q in
                (<["arrivalCount" := arrivalCount]> p,
                 <["arrivalCount" := n - arrivalCount]> p)
            | None => (p, p)
            end
        end in
      (<["duration" := chunkSize]> chunk, <["duration" := d - chunkSize]> remainder)
  | None =>
      match p !! "pause" with
      | Some z => (<["pause" := chunkSize]> p, <["pause" := z - chunkSize]> p)
      | None => (p, p)
      end
  end.

(** The [while] loop of [splitScriptByLength].  A split sets
    [remainingDuration] to [0], which ends the loop: that exit is taken
    here at once, so the loop is structural in the phases still to shift. *)
Fixpoint splitScriptByLength_loop (remainingDuration : Z)
    (chunk remainder : list phase) : list phase * list phase :=
  match remainder with
  | [] => (chunk, [])
  | p :: rest =>
      if 0 <? remainingDuration then
        let phaseLength := phaseLength p in
        if remainingDuration <? phaseLength then
          let phaseParts := splitPhaseByLength p remainingDuration in
          (chunk ++ [phaseParts.1], phaseParts.2 :: rest)
        else
          splitScriptByLength_loop (remainingDuration - phaseLength) (chunk ++ [p]) rest
      else (chunk, remainder)
  end.

(** [chunk] is a copy taken before [_start] is deleted from the script;
    [remainder] is the script itself. *)
Definition splitScriptByLength (s : script) (chunkSize : Z) : script * script :=
  let remainder := if truthy (_start s) then set_start None s else s in
  let parts := splitScriptByLength_loop chunkSize [] (phases s) in
  (set_phases parts.1 s, set_phases parts.2 remainder).

(** ** Line intersection *)

Record point : Type := mkPoint { x : Z; y : Z }.
Record line : Type := mkLine { A : Z; B : Z; C : Z }.

Definition abc (p1 p2 : point) : line :=
  let A := y p2 - y p1 in
  let B := x p1 - x p2 in
  {| A := A; B := B; C := A * x p1 + B * y p1 |}.

Definition intersect (l1 l2 : line) : result point :=
  let det := A l1 * B l2 - A l2 * B l1 in
  if det =? 0 then
    Throw "Parallel lines never intersect, detect and avoid this case"
  else
    Ok {| x := Math_round (inject_Z (B l2 * C l1 - B l1 * C l2) / inject_Z det)%Q;
          y := Math_round (inject_Z (A l1 * C l2 - A l2 * C l1) / inject_Z det)%Q |}.

Definition intersection (p : phase) (chunkSize : Z) : result point :=
  arrivalRate ← get "arrivalRate" p;
  duration ← get "duration" p;
  rampTo ← get "rampTo" p;
  let ramp := abc {| x := 0; y := arrivalRate |} {| x := duration; y := rampTo |} in
  let limit := abc {| x := 0; y := chunkSize |} {| x := duration; y := chunkSize |} in
  intersect ramp limit.

(** ** Building sub-phases *)

(** [value = None] is the [null] of the source. *)
Definition overWrite (p : phase) (field : string) (value : option Z) : phase :=
  match value with
  | Some v => <[field := v]> p
  | None => delete field p
  end.

Definition copyOverwritePush (arr : list phase) (p : phase)
    (arrivalCount arrivalRate rampTo duration pause : option Z) : list phase :=
  let newPhase := p in
  let newPhase := overWrite newPhase "arrivalCount" arrivalCount in
  let newPhase := overWrite newPhase "arrivalRate" arrivalRate in
  let newPhase := overWrite newPhase "rampTo" rampTo in
  let newPhase := overWrite newPhase "duration" duration in
  let newPhase := overWrite newPhase "pause" pause in
  arr ++ [newPhase].

Definition addArrivalCount (arr : list phase) (p : phase) (arrivalCount duration : Z) :=
  copyOverwritePush arr p (Some arrivalCount) None None (Some duration) None.

Definition addArrivalRate (arr : list phase) (p : phase) (arrivalRate duration : Z) :=
  copyOverwritePush arr p None (Some arrivalRate) None (Some duration) None.

Definition addRamp (arr : list phase) (p : phase) (arrivalRate rampTo duration : Z) :=
  copyOverwritePush arr p None (Some (if 0 <? arrivalRate then arrivalRate else 1))
    (Some rampTo) (Some duration) None.

Definition addPause (arr : list phase) (p : phase) (pause : Z) :=
  copyOverwritePush arr p None None None None (Some pause).

(** ** Splitting by width *)

Record parts : Type := mkParts { chunk : list phase; remainder : list phase }.

(** Lines 396-398: a ramp that does not ramp loses its [rampTo], in the
    phase object that was passed in. *)
Definition dropFlatRamp (p : phase) : phase :=
  match p !! "rampTo", p !! "arrivalRate" with
  | Some r, Some a => if r =? a then delete "rampTo" p else p
  | _, _ => p
  end.

(** The body of [splitPhaseByWidth] after line 398. *)
Definition splitPhaseByWidth_parts (p : phase) (chunkSize : Z) : result parts :=
  match p !! "rampTo", p !! "arrivalRate" with
  | Some rampTo, Some arrivalRate =>
      duration ← get "duration" p;
      let max := Z.max arrivalRate rampTo in
      let min := Z.min arrivalRate rampTo in
      if max <=? chunkSize then
        Ok {| chunk := addRamp [] p arrivalRate rampTo duration;
              remainder := addPause [] p duration |}
      else if chunkSize <=? min then
        Ok {| chunk := addArrivalRate [] p chunkSize duration;
              remainder := addRamp [] p (arrivalRate - chunkSize) (rampTo - chunkSize) duration |}
      else
        i ← intersection p chunkSize;
        if arrivalRate <? rampTo then
          Ok {| chunk := addArrivalRate (addRamp [] p arrivalRate chunkSize (x i))
                           p chunkSize (duration - x i);
                remainder := addRamp (addPause [] p (x i))
                               p 1 (rampTo - chunkSize) (duration - x i) |}
        else
          Ok {| chunk := addRamp (addArrivalRate [] p chunkSize (x i))
                           p chunkSize rampTo (duration - x i);
                remainder := addPause (addRamp [] p (arrivalRate - chunkSize) 1 (x i))
                               p (duration - x i) |}
  | _, Some arrivalRate =>
      duration ← get "duration" p;
      if chunkSize <? arrivalRate then
        Ok {| chunk := addArrivalRate [] p chunkSize duration;
              remainder := addArrivalRate [] p (arrivalRate - chunkSize) duration |}
      else
        Ok {| chunk := addArrivalRate [] p arrivalRate duration;
              remainder := addPause [] p duration |}
  | _, None =>
      match p !! "arrivalCount", p !! "duration" with
      | Some n, Some duration =>
          let rps := (inject_Z n / inject_Z duration)%Q in
          if Qle_bool (inject_Z chunkSize) rps then
            let arrivalCount := Math_floor (inject_Z chunkSize * inject_Z duration)%Q in
            Ok {| chunk := addArrivalCount [] p arrivalCount duration;
                  remainder := addArrivalCount [] p (n - arrivalCount) duration |}
          else
            Ok {| chunk := addArrivalCount [] p n duration;
                  remainder := addPause [] p duration |}
      | _, _ =>
          match p !! "pause" with
          | Some pause =>
              Ok {| chunk := addPause [] p pause; remainder := addPause [] p pause |}
          | None => Ok {| chunk := []; remainder := [] |}
          end
      end
  end.

(** [splitPhaseByWidth] returns the state in which it leaves the phase it
    was given, and the sub-phases, which are all fresh copies. *)
Definition splitPhaseByWidth (p : phase) (chunkSize : Z) : phase * result parts :=
  let p := dropFlatRamp p in
  (p, splitPhaseByWidth_parts p chunkSize).

(** The [for] loop of [splitScriptByWidth] over the phases of the input
    script: the phases as the calls leave them, and both sides' phases. *)
Fixpoint splitScriptByWidth_loop (ps : list phase) (chunkSize : Z)
    (chunkPhases remainderPhases : list phase) : list phase * result parts :=
  match ps with
  | [] => ([], Ok {| chunk := chunkPhases; remainder := remainderPhases |})
  | p :: rest =>
      let '(p', r) := splitPhaseByWidth p chunkSize in
      match r with
      | Ok phaseParts =>
          let '(rest', r') :=
            splitScriptByWidth_loop rest chunkSize
              (chunkPhases ++ chunk phaseParts)
              (remainderPhases ++ remainder phaseParts) in
          (p' :: rest', r')
      | Throw m => (p' :: rest, Throw m)
      | UndefinedRead f => (p' :: rest, UndefinedRead f)
      | OutOfFuel => (p' :: rest, OutOfFuel)
      end
  end.

Record script_parts : Type := mkScriptParts { chunk_script : script; remainder_script : script }.

(** Both sides are copies of the script taken before the loop runs; the
    first component is the input script after the call. *)
Definition splitScriptByWidth (s : script) (chunkSize : Z) : script * result script_parts :=
  let '(ps', r) := splitScriptByWidth_loop (phases s) chunkSize [] [] in
  (set_phases ps' s,
   ph ← r;
   Ok {| chunk_script := set_phases (chunk ph) s;
         remainder_script := set_phases (remainder ph) s |}).

(** ** Phases of the four shapes *)

Definition constantRate (arrivalRate duration : Z) : phase :=
  <["arrivalRate" := arrivalRate]> (<["duration" := duration]> ∅).
Definition ramp (arrivalRate rampTo duration : Z) : phase :=
  <["arrivalRate" := arrivalRate]> (<["rampTo" := rampTo]> (<["duration" := duration]> ∅)).
Definition countOver (arrivalCount duration : Z) : phase :=
  <["arrivalCount" := arrivalCount]> (<["duration" := duration]> ∅).
Definition pauseFor (pause : Z) : phase := <["pause" := pause]> ∅.

(** ** The orchestrator *)

(** A call [invokeSelf(timeDelay, event, context, complete)].  The delay is
    [fireAt - Date.now()], where [fireAt] is the event's [_start] less the
    time buffer; the wall clock at the call is not part of the model. *)
Record dispatch : Type := invokeSelf { fireAt : option Z; event : script }.

(** What one call of [run] does.  The callback of every [invokeSelf] and
    of the nested [run] is the [complete] closure of this invocation. *)
Inductive outcome : Type :=
  | Rejected (msgs : list message)
  | LengthRecursed (toComplete : Z) (chunk : script) (inner : outcome) (rem : dispatch)
  | LengthDispatched (toComplete : Z) (chunk rem : dispatch)
  | WidthDispatched (toComplete : Z) (sent : list dispatch)
  | Leaf (timeNow : Z) (s : script)
  | Failed (msg : string)
  | Stuck (field : string)
  | NoFuel.

(** The [complete] closure: the counter after the call, and whether the
    call reported completion to the callback of the invocation. *)
Definition complete (toComplete : Z) : Z * bool :=
  let toComplete := toComplete - 1 in
  (toComplete, negb (0 <? toComplete)).

(** [n] calls of [complete]: the counter and the number of reports made. *)
Fixpoint completions (n : nat) (toComplete : Z) (reports : nat) : Z * nat :=
  match n with
  | O => (toComplete, reports)
  | S n =>
      let '(toComplete, done) := complete toComplete in
      completions n toComplete (if done then S reports else reports)
  end.

Definition send (timeBuffer : Z) (s : script) : dispatch :=
  {| fireAt := (fun t => t - timeBuffer) <$> _start s; event := s |}.

(** The [do ... while (scriptWidth > 0)] loop of the width branch. *)
Fixpoint widthLoop (fuel : nat) (s : script) (cfg : settings)
    (sent : list dispatch) : result (list dispatch) :=
  match fuel with
  | O => OutOfFuel
  | S fuel =>
      parts ← (splitScriptByWidth s (maxChunkRequestsPerSecond cfg)).2;
      let sent := sent ++ [send (timeBufferInMilliseconds cfg) (chunk_script parts)] in
      let s := remainder_script parts in
      if Qlt_le_dec 0 (scriptWidth s) then widthLoop fuel s cfg sent else Ok sent
  end.

Section Orchestrator.

(** [Date_now n] is the reading of the wall clock that the [n]-th nested
    invocation of [run] takes as its [timeNow] (line 597); the readings
    that only feed log lines and timer delays are left out. *)
Variable Date_now : nat -> Z.

Definition assignGenesis (timeNow : Z) (s : script) : script :=
  if truthy (_genesis s) then s else set_genesis (Some timeNow) s.

(** The value [run] leaves in [_genesis]: a truthy one stays, anything
    else (absent or [0]) is replaced by [timeNow]. *)
Definition genesisAfter (tick : nat) (s : script) : option Z :=
  if truthy (_genesis s) then _genesis s else Some (Date_now tick).

(** The length branch up to the two parts with their start times. *)
Definition lengthParts (timeNow : Z) (cfg : settings) (s : script) : script * script :=
  let parts := splitScriptByLength s (maxChunkDurationInSeconds cfg) in
  let chunk :=
    if truthy (_start parts.1) then parts.1
    else set_start (Some (timeNow + timeBufferInMilliseconds cfg)) parts.1 in
  let remainder :=
    set_start ((fun t => t + maxChunkDurationInSeconds cfg * 1000) <$> _start chunk)
      parts.2 in
  (chunk, remainder).

Fixpoint run (fuel tick : nat) (s : script) : outcome :=
  match fuel with
  | O => NoFuel
  | S fuel =>
      let '(valid, msgs) := validScript s in
      if valid then
        let timeNow := Date_now tick in
        let cfg := getSettings s in
        let scriptDuration := scriptLength s in
        let width := scriptWidth s in
        let s := assignGenesis timeNow s in
        if maxChunkDurationInSeconds cfg <? scriptDuration then
          let toComplete := 2 in
          let '(chunk, remainder) := lengthParts timeNow cfg s in
          let width := scriptWidth chunk in
          if Qlt_le_dec (inject_Z (maxChunkRequestsPerSecond cfg)) width then
            LengthRecursed toComplete chunk (run fuel (S tick) chunk)
              (send (timeBufferInMilliseconds cfg) remainder)
          else
            LengthDispatched toComplete
              (send (timeBufferInMilliseconds cfg) chunk)
              (send (timeBufferInMilliseconds cfg) remainder)
        else if Qlt_le_dec (inject_Z (maxChunkRequestsPerSecond cfg)) width then
          let s :=
            if truthy (_start s) then s
            else set_start (Some (timeNow + timeBufferInMilliseconds cfg)) s in
          let toComplete :=
            Math_ceil (width / inject_Z (maxChunkRequestsPerSecond cfg))%Q in
          match widthLoop fuel s cfg [] with
          | Ok sent => WidthDispatched toComplete sent
          | Throw m => Failed m
          | UndefinedRead f => Stuck f
          | OutOfFuel => NoFuel
          end
        else
          let s := if truthy (_start s) then s else set_start (Some timeNow) s in
          Leaf timeNow s
      else Rejected msgs
  end.

(** The scripts an outcome hands on: to peers, to the nested [run], to
    the load generator. *)
Fixpoint handedOn (o : outcome) : list script :=
  match o with
  | LengthRecursed _ chunk inner rem => chunk :: handedOn inner ++ [event rem]
  | LengthDispatched _ chunk rem => [event chunk; event rem]
  | WidthDispatched _ sent => event <$> sent
  | Leaf _ s => [s]
  | _ => []
  end.

End Orchestrator.

(** ** The phase objects in the store *)

(** Phases live in a store of objects; [splitPhaseByWidth] works on the
    object it is handed and pushes newly allocated objects. *)
Module Store.

Definition loc := positive.
Abbreviation store := (gmap loc (gmap string Z)).

Definition alloc (h : store) (p : phase) : store * loc :=
  let l := fresh (dom h) in (<[l := p]> h, l).

Fixpoint allocAll (h : store) (ps : list phase) : store * list loc :=
  match ps with
  | [] => (h, [])
  | p :: rest =>
      let '(h, l) := alloc h p in
      let '(h, ls) := allocAll h rest in
      (h, l :: ls)
  end.

(** [splitPhaseByWidth] called on the object at [l]: the store afterwards and
    the references the two arrays hold.  An unallocated [l] is no call. *)
Definition splitPhaseByWidth_at (h : store) (l : loc) (chunkSize : Z)
    : store * result (list loc * list loc) :=
  match h !! l with
  | None => (h, UndefinedRead "phase")
  | Some p =>
      let '(p', r) := splitPhaseByWidth p chunkSize in
      let h := <[l := p']> h in
      match r with
      | Ok ph =>
          let '(h, cs) := allocAll h (chunk ph) in
          let '(h, rs) := allocAll h (remainder ph) in
          (h, Ok (cs, rs))
      | Throw m => (h, Throw m)
      | UndefinedRead f => (h, UndefinedRead f)
      | OutOfFuel => (h, OutOfFuel)
      end
  end.

End Store.

(** ** The four shapes of a phase and the rate curve they denote *)

Inductive shape : Type :=
  | Constant (arrivalRate duration : Z)
  | Ramp (arrivalRate rampTo duration : Z)
  | Count (arrivalCount duration : Z)
  | Pause (pause : Z).

(** The shape of a phase that carries exactly the fields of one shape
    (other attributes, such as a name, do not matter). *)
Definition classify (p : phase) : option shape :=
  match p !! "arrivalRate", p !! "rampTo", p !! "arrivalCount",
        p !! "duration", p !! "pause" with
  | Some a, None, None, Some d, None => Some (Constant a d)
  | Some a, Some r, None, Some d, None => Some (Ramp a r d)
  | None, None, Some n, Some d, None => Some (Count n d)
  | None, None, None, None, Some z => Some (Pause z)
  | _, _, _, _, _ => None
  end.

(** The invariants of the data model: positive lengths, rates and counts
    that are not negative. *)
Definition validShape (sh : shape) : bool :=
  match sh with
  | Constant a d => (0 <=? a) && (0 <? d)
  | Ramp a r d => (0 <=? a) && (0 <=? r) && (0 <? d)
  | Count n d => (0 <=? n) && (0 <? d)
  | Pause z => 0 <? z
  end.

Definition validPhase (p : phase) : bool :=
  match classify p with
  | Some sh => validShape sh
  | None => false
  end.

Definition validPhases (s : script) : bool :=
  match config_phases s with
  | Some ps => forallb validPhase ps
  | None => false
  end.




(** * Notions the properties are stated with *)

Definition totalLength (ps : list phase) : Z :=
  foldr (fun p acc => phaseLength p + acc) 0 ps.

Definition tenPhases : script :=
  mkScript None (Some (replicate 10 (constantRate 1 30))) None None false.

Definition noLength : script :=
  mkScript None (Some [<["arrivalRate" := 5]> ∅]) None None false.

(** The two scripts the length branch of [run] hands on. *)
Definition lengthSplit (o : outcome) : option (script * script) :=
  match o with
  | LengthRecursed _ chunk _ rem => Some (chunk, event rem)
  | LengthDispatched _ chunk rem => Some (event chunk, event rem)
  | _ => None
  end.

Definition tenMinutes : script :=
  mkScript None (Some [constantRate 10 600]) None None false.

Definition genesisZero : script :=
  mkScript None (Some [constantRate 10 120]) (Some 0) None false.

Definition twoMinutes : script :=
  mkScript None (Some [constantRate 10 120]) (Some 42) None false.

Definition flatRamp : phase := ramp 20 20 60.

(** The phase [copyOverwritePush] pushes. *)
Definition built (p : phase) (arrivalCount arrivalRate rampTo duration pause : option Z)
    : phase :=
  overWrite
    (overWrite
       (overWrite
          (overWrite (overWrite p "arrivalCount" arrivalCount) "arrivalRate" arrivalRate)
          "rampTo" rampTo)
       "duration" duration)
    "pause" pause.

Definition widthOf (sh : shape) : Q :=
  match sh with
  | Constant a _ => inject_Z a
  | Ramp a r _ => inject_Z (Z.max a r)
  | Count n d => inject_Z n / inject_Z d
  | Pause _ => 0
  end%Q.

Definition lengthOf (sh : shape) : Z :=
  match sh with
  | Constant _ d | Ramp _ _ d | Count _ d => d
  | Pause z => z
  end.

Definition rampStart (a : Z) : Z := if 0 <? a then a else 1.

(** The abscissa at which [intersection] finds the ramp from [a] to [r]
    over [d] seconds at the ceiling [c]. *)
Definition intersectionX (a r d c : Z) : Z :=
  match intersect (abc {| x := 0; y := a |} {| x := d; y := r |})
                  (abc {| x := 0; y := c |} {| x := d; y := c |}) with
  | Ok i => x i
  | _ => 0
  end.

Definition normShape (sh : shape) : shape :=
  match sh with
  | Ramp a r d => if r =? a then Constant a d else sh
  | _ => sh
  end.

(** The shapes of the sub-phases [splitPhaseByWidth] pushes for a phase of
    a given shape. *)
Definition splitShape (sh : shape) (c : Z) : list shape * list shape :=
  match sh with
  | Ramp a r d =>
      if Z.max a r <=? c then ([Ramp (rampStart a) r d], [Pause d])
      else if c <=? Z.min a r then
        ([Constant c d], [Ramp (rampStart (a - c)) (r - c) d])
      else
        let x := intersectionX a r d c in
        if a <? r then
          ([Ramp (rampStart a) c x; Constant c (d - x)],
           [Pause x; Ramp (rampStart 1) (r - c) (d - x)])
        else
          ([Constant c x; Ramp (rampStart c) r (d - x)],
           [Ramp (rampStart (a - c)) 1 x; Pause (d - x)])
  | Constant a d =>
      if c <? a then ([Constant c d], [Constant (a - c) d])
      else ([Constant a d], [Pause d])
  | Count n d =>
      if Qle_bool (inject_Z c) (inject_Z n / inject_Z d) then
        let m := Math_floor (inject_Z c * inject_Z d) in
        ([Count m d], [Count (n - m) d])
      else ([Count n d], [Pause d])
  | Pause z => ([Pause z], [Pause z])
  end.

(** A ramp that crosses the ceiling needs a duration that is not [0], or
    [intersect] throws. *)
Definition crossable (sh : shape) (c : Z) : Prop :=
  match sh with
  | Ramp a r d => Z.max a r <= c \/ c <= Z.min a r \/ d <> 0
  | _ => True
  end.

Definition shaped (ps : list phase) (shs : list shape) : Prop :=
  Forall2 (fun p sh => classify p = Some sh) ps shs.

(** A sub-phase is a copy of the phase with the five fields overwritten. *)
Definition copyOf (p q : phase) : Prop :=
  exists ac ar rt du pa, q = built p ac ar rt du pa.

(** The phases the width loop meets: those of a valid script, and the
    remainders of earlier rounds, where a sub-phase may have length [0]. *)
Definition okShape (c : Z) (sh : shape) : Prop :=
  match sh with
  | Constant a _ => 0 <= a
  | Ramp a r d => 0 <= a /\ 0 <= r /\ (0 < d \/ Z.max a r <= c)
  | Count n d => 0 <= n /\ 0 < d
  | Pause _ => True
  end.

Definition okPhase (c : Z) (p : phase) : Prop :=
  exists sh, classify p = Some sh /\ okShape c sh.

Definition rampScript : script :=
  mkScript None (Some [ramp 0 50 100; constantRate 100 60; countOver 100 10; pauseFor 5])
    None None false.

Definition wideScript : script :=
  mkScript None (Some [constantRate 100 60]) None None false.










(** ** Further notions *)

(** The five fields that give a phase its shape. *)
Definition shapeFields : list string :=
  ["arrivalCount"; "arrivalRate"; "rampTo"; "duration"; "pause"].

Definition isShapeField (f : string) : bool := existsb (String.eqb f) shapeFields.

Definition defaultScript (ps : list phase) : script :=
  mkScript None (Some ps) None None false.



(** The outcomes in which [run], or a nested [run], threw. *)
Fixpoint threw (o : outcome) : bool :=
  match o with
  | Failed _ | Stuck _ => true
  | LengthRecursed _ _ inner _ => threw inner
  | _ => false
  end.

(** Too long and too wide for one chunk. *)
Definition longAndWide : script :=
  mkScript None (Some [constantRate 100 600]) None None false.

(** * Properties *)

(** ** The scenarios of the specification *)

Example scenario_S4 :
  splitPhaseByWidth (ramp 0 50 100) 25 =
  (ramp 0 50 100,
   Ok {| chunk := [ramp 1 25 50; constantRate 25 50];
         remainder := [pauseFor 50; ramp 1 25 50] |}).
Proof. vm_compute. reflexivity. Qed.

Example scenario_S5 :
  splitPhaseByWidth (countOver 100 10) 5 =
  (countOver 100 10,
   Ok {| chunk := [countOver 50 10]; remainder := [countOver 50 10] |}).
Proof. vm_compute. reflexivity. Qed.

(** ** Lengths *)










(** ** The policy of the length split at a phase boundary *)

(** C7, as stated: a phase whose length equals the remaining budget is
    split rather than moved whole.  The loop does not do that: it moves
    such a phase whole, and no phase of length [0] is left behind. *)
Lemma splitScriptByLength_equal_length_not_split :
  ~ (forall (k : Z) (acc : list phase) (p : phase) (rest : list phase),
       0 < k -> phaseLength p = k ->
       splitScriptByLength_loop k acc (p :: rest) =
       (acc ++ [(splitPhaseByLength p k).1], (splitPhaseByLength p k).2 :: rest)).
Proof.
  intros H.
  specialize (H 30 [] (constantRate 1 30) [] eq_refl eq_refl).
  vm_compute in H. discriminate H.
Qed.

(** C7, amended: in the loop of [splitScriptByLength] a shifted phase is
    moved whole to the chunk when [phaseLength <= remainingDuration]
    (also when both are equal) and is split only when
    [phaseLength > remainingDuration]. *)
Theorem splitScriptByLength_move_whole_policy
    (k : Z) (acc : list phase) (p : phase) (rest : list phase) :
  0 < k ->
  (phaseLength p <= k ->
   splitScriptByLength_loop k acc (p :: rest) =
   splitScriptByLength_loop (k - phaseLength p) (acc ++ [p]) rest) /\
  (k < phaseLength p ->
   splitScriptByLength_loop k acc (p :: rest) =
   (acc ++ [(splitPhaseByLength p k).1], (splitPhaseByLength p k).2 :: rest)).
Proof.
  intros Hk. simpl.
  destruct (Z.ltb_spec 0 k); [|lia].
  destruct (Z.ltb_spec k (phaseLength p)); split; intros; try reflexivity; lia.
Qed.

Lemma splitScriptByLength_move_whole_policy_witness :
  (phaseLength (constantRate 1 30) <= 30 ->
   splitScriptByLength_loop 30 [] [constantRate 1 30; constantRate 1 30] =
   splitScriptByLength_loop (30 - phaseLength (constantRate 1 30))
     ([] ++ [constantRate 1 30]) [constantRate 1 30]) /\
  (30 < phaseLength (constantRate 1 30) ->
   splitScriptByLength_loop 30 [] [constantRate 1 30; constantRate 1 30] =
   ([] ++ [(splitPhaseByLength (constantRate 1 30) 30).1],
    [(splitPhaseByLength (constantRate 1 30) 30).2; constantRate 1 30])).
Proof.
  apply (splitScriptByLength_move_whole_policy 30 [] (constantRate 1 30)
           [constantRate 1 30]).
  lia.
Defined.

(** The phase at the boundary goes to the chunk untouched. *)
Example scenario_S6 :
  splitScriptByLength_loop 240 [] (replicate 10 (constantRate 1 30)) =
  (replicate 8 (constantRate 1 30), replicate 2 (constantRate 1 30)).
Proof. vm_compute. reflexivity. Qed.

(** ** The validator and the first phase *)

(** C6. A script whose first (and only) phase has neither [duration] nor
    [pause]: [scriptLength] answers [-1 * 0], which is not negative, and
    [validScript] accepts the script without calling the callback. *)
Theorem validScript_accepts_first_phase_without_length :
  phaseLength (<["arrivalRate" := 5]> ∅) = -1 /\
  scriptLength noLength = 0 /\
  validScript noLength = (true, []).
Proof. vm_compute. repeat split; reflexivity. Qed.

(** Whatever follows it, a first phase without a length hides itself and
    all later phases from [scriptLength]. *)
Lemma scriptLength_first_phase_invalid (s : script) (p : phase) (rest : list phase) :
  config_phases s = Some (p :: rest) -> phaseLength p < 0 -> scriptLength s = 0.
Proof.
  intros Hs Hp. unfold scriptLength, phases. rewrite Hs. simpl.
  destruct (Z.ltb_spec (phaseLength p) 0); [reflexivity|lia].
Qed.

(** From index [1] on the first phase without a length is reported. *)
Lemma scriptLength_later_phase_invalid (ps : list phase) (p : phase) (rest : list phase) :
  forall (i ret : Z),
    Forall (fun q => 0 <= phaseLength q) ps -> phaseLength p < 0 ->
    scriptLength_loop (ps ++ p :: rest) i ret = - (i + Z.of_nat (length ps)).
Proof.
  induction ps as [|q ps IH]; intros i ret Hps Hp; simpl.
  - destruct (Z.ltb_spec (phaseLength p) 0); lia.
  - inversion Hps; subst.
    destruct (Z.ltb_spec (phaseLength q) 0); [lia|].
    rewrite IH by assumption. lia.
Qed.

(** ** Settings that pass the validator *)

Lemma override_nonzero (o : gmap string Z) (f : string) (dflt : Z) :
  dflt <> 0 -> override o f dflt <> 0.
Proof.
  intros Hd. unfold override, truthy.
  destruct (o !! f) as [v|]; simpl; [|assumption].
  destruct (Z.eqb_spec v 0); simpl; assumption.
Qed.


Lemma getSettings_split (s s' : script) :
  _split s = _split s' -> getSettings s = getSettings s'.
Proof. intros H. unfold getSettings. now rewrite H. Qed.

(** ** Start times in the length branch *)

Section StartTimes.

Variable Date_now : nat -> Z.


(** One unfolding of [run], with the parts of the length branch named. *)
Lemma run_unfold (fuel tick : nat) (s : script) :
  run Date_now (S fuel) tick s =
  let timeNow := Date_now tick in
  let cfg := getSettings s in
  let s1 := assignGenesis timeNow s in
  let limit := inject_Z (maxChunkRequestsPerSecond cfg) in
  if (validScript s).1 then
    if maxChunkDurationInSeconds cfg <? scriptLength s then
      let lp := lengthParts timeNow cfg s1 in
      if Qlt_le_dec limit (scriptWidth lp.1) then
        LengthRecursed 2 lp.1 (run Date_now fuel (S tick) lp.1)
          (send (timeBufferInMilliseconds cfg) lp.2)
      else
        LengthDispatched 2 (send (timeBufferInMilliseconds cfg) lp.1)
          (send (timeBufferInMilliseconds cfg) lp.2)
    else if Qlt_le_dec limit (scriptWidth s) then
      match
        widthLoop fuel
          (if truthy (_start s1) then s1
           else set_start (Some (timeNow + timeBufferInMilliseconds cfg)) s1) cfg []
      with
      | Ok sent =>
          WidthDispatched (Math_ceil (scriptWidth s / limit)%Q) sent
      | Throw m => Failed m
      | UndefinedRead f => Stuck f
      | OutOfFuel => NoFuel
      end
    else Leaf timeNow (if truthy (_start s1) then s1 else set_start (Some timeNow) s1)
  else Rejected (validScript s).2.
Proof.
  cbn [run]. destruct (validScript s) as [[|] msgs]; cbn [fst snd]; [|reflexivity].
  destruct (_ <? _); [|reflexivity].
  cbv zeta.
  destruct (lengthParts (Date_now tick) (getSettings s)
              (assignGenesis (Date_now tick) s)) as [c r].
  reflexivity.
Qed.




Lemma assignGenesis_split (timeNow : Z) (s : script) :
  _split (assignGenesis timeNow s) = _split s /\
  _start (assignGenesis timeNow s) = _start s.
Proof. unfold assignGenesis. destruct (truthy (_genesis s)); split; reflexivity. Qed.

End StartTimes.




(** Scenario S2: the chunk of 240 seconds starts after the time buffer,
    the remainder of 360 seconds 240000 ms later. *)
Example scenario_S2 :
  lengthSplit (run (fun _ => 1000) 1 0 tenMinutes) =
  Some (mkScript None (Some [constantRate 10 240]) (Some 1000) (Some 16000) false,
        mkScript None (Some [constantRate 10 360]) (Some 1000) (Some 256000) false).
Proof. vm_compute. reflexivity. Qed.

(** ** The genesis time stamp *)

Lemma splitScriptByLength_genesis (s : script) (k : Z) :
  _genesis (splitScriptByLength s k).1 = _genesis s /\
  _genesis (splitScriptByLength s k).2 = _genesis s.
Proof.
  unfold splitScriptByLength. destruct s as [sp cp g st tr]; cbn.
  destruct (truthy st); split; reflexivity.
Qed.

Lemma splitScriptByWidth_genesis (s : script) (c : Z) (ph : script_parts) :
  (splitScriptByWidth s c).2 = Ok ph ->
  _genesis (chunk_script ph) = _genesis s /\
  _genesis (remainder_script ph) = _genesis s.
Proof.
  unfold splitScriptByWidth.
  destruct (splitScriptByWidth_loop (phases s) c [] []) as [ps' [r| | |]];
    cbn; intros H; try discriminate H.
  injection H as <-. split; reflexivity.
Qed.

Lemma lengthParts_genesis (Date_now : nat -> Z) (timeNow : Z) (cfg : settings) (s : script) :
  _genesis (lengthParts timeNow cfg s).1 = _genesis s /\
  _genesis (lengthParts timeNow cfg s).2 = _genesis s.
Proof.
  unfold lengthParts, splitScriptByLength.
  destruct s as [sp cp g [st|] tr]; cbn; [destruct (st =? 0)|]; split; reflexivity.
Qed.

Lemma widthLoop_genesis (fuel : nat) :
  forall (s : script) (cfg : settings) (sent sent' : list dispatch),
    Forall (fun d => _genesis (event d) = _genesis s) sent ->
    widthLoop fuel s cfg sent = Ok sent' ->
    Forall (fun d => _genesis (event d) = _genesis s) sent'.
Proof.
  induction fuel as [|fuel IH]; intros s cfg sent sent' Hsent; cbn [widthLoop];
    [discriminate|].
  destruct ((splitScriptByWidth s (maxChunkRequestsPerSecond cfg)).2)
    as [ph| | |] eqn:Hsplit; cbn; try discriminate.
  destruct (splitScriptByWidth_genesis _ _ _ Hsplit) as [Hc Hr].
  assert (Hsent' : Forall (fun d => _genesis (event d) = _genesis s)
                     (sent ++ [send (timeBufferInMilliseconds cfg) (chunk_script ph)])).
  { apply Forall_app; split; [assumption|]. constructor; [exact Hc|constructor]. }
  destruct (Qlt_le_dec 0 (scriptWidth (remainder_script ph))).
  - intros Hloop. apply IH in Hloop.
    + eapply Forall_impl; [exact Hloop|]. cbn. intros d Hd. congruence.
    + eapply Forall_impl; [exact Hsent'|]. cbn. intros d Hd. congruence.
  - intros [= <-]. exact Hsent'.
Qed.

Section Genesis.

Variable Date_now : nat -> Z.

Lemma assignGenesis_genesis (tick : nat) (s : script) :
  _genesis (assignGenesis (Date_now tick) s) = genesisAfter Date_now tick s.
Proof.
  unfold assignGenesis, genesisAfter. destruct (truthy (_genesis s)); reflexivity.
Qed.

Lemma genesisAfter_truthy (tick : nat) (s : script) :
  Date_now tick <> 0 -> truthy (genesisAfter Date_now tick s) = true.
Proof.
  intros Hnz. unfold genesisAfter.
  destruct (truthy (_genesis s)) eqn:Ht; [exact Ht|].
  cbn. now apply negb_true_iff, Z.eqb_neq.
Qed.

Lemma run_genesis (fuel : nat) :
  forall (tick : nat) (s : script),
    (forall n, Date_now n <> 0) ->
    Forall (fun s' => _genesis s' = genesisAfter Date_now tick s)
      (handedOn (run Date_now fuel tick s)).
Proof.
  induction fuel as [|fuel IH]; intros tick s Hclock; [constructor|].
  rewrite run_unfold. cbv zeta.
  set (s1 := assignGenesis (Date_now tick) s).
  assert (Hg : _genesis s1 = genesisAfter Date_now tick s) by apply assignGenesis_genesis.
  destruct (validScript s).1; [|constructor].
  destruct (_ <? _).
  - destruct (lengthParts_genesis Date_now (Date_now tick) (getSettings s) s1)
      as [Hc Hr].
    destruct (Qlt_le_dec _ _); cbn [handedOn event send].
    + constructor; [congruence|].
      apply Forall_app; split; [|constructor; [congruence|constructor]].
      eapply Forall_impl; [apply IH, Hclock|].
      intros s' Hs'. cbv beta in Hs' |- *. rewrite Hs'.
      unfold genesisAfter at 1.
      rewrite Hc, Hg, genesisAfter_truthy by apply Hclock. reflexivity.
    + repeat constructor; congruence.
  - destruct (Qlt_le_dec _ _).
    + destruct (widthLoop _ _ _ _) as [sent| | |] eqn:Hloop; try constructor.
      apply widthLoop_genesis in Hloop; [|constructor].
      cbn [handedOn]. apply Forall_fmap.
      eapply Forall_impl; [exact Hloop|]. intros d Hd. unfold compose. cbv beta in Hd |- *.
      rewrite Hd, <- Hg. destruct (truthy (_start s1)); reflexivity.
    + cbn [handedOn]. constructor; [|constructor].
      rewrite <- Hg. destruct (truthy (_start s1)); reflexivity.
Qed.

End Genesis.

(** C9, as stated: an existing [_genesis] is never overwritten.  A script
    that arrives with [_genesis] set to [0] leaves [run] with the clock
    reading instead. *)
Lemma run_overwrites_zero_genesis :
  ~ (forall (Date_now : nat -> Z) (fuel tick : nat) (s : script) (g : Z),
       _genesis s = Some g ->
       Forall (fun s' => _genesis s' = Some g) (handedOn (run Date_now fuel tick s))).
Proof.
  intros H.
  specialize (H (fun _ => 1000) 1%nat 0%nat genesisZero 0 eq_refl).
  vm_compute in H. inversion H as [|? ? Hg _]. discriminate Hg.
Qed.

(** C9, amended: [run] assigns [_genesis = timeNow] when [_genesis] is
    unset or [0], and never overwrites a [_genesis] that is not [0];
    [splitScriptByLength] and [splitScriptByWidth] carry [_genesis]
    unchanged into chunk and remainder; so, with a clock that never reads
    [0], every script that [run] hands on (to a peer, to the nested [run],
    to the load generator) carries that one [_genesis]. *)
Theorem genesis_is_kept (Date_now : nat -> Z) (fuel tick : nat) (s : script) :
  (forall n, Date_now n <> 0) ->
  (forall g, _genesis s = Some g -> g <> 0 ->
     _genesis (assignGenesis (Date_now tick) s) = Some g) /\
  (truthy (_genesis s) = false ->
     _genesis (assignGenesis (Date_now tick) s) = Some (Date_now tick)) /\
  (forall k, _genesis (splitScriptByLength s k).1 = _genesis s /\
             _genesis (splitScriptByLength s k).2 = _genesis s) /\
  (forall c ph, (splitScriptByWidth s c).2 = Ok ph ->
     _genesis (chunk_script ph) = _genesis s /\
     _genesis (remainder_script ph) = _genesis s) /\
  Forall (fun s' => _genesis s' = _genesis (assignGenesis (Date_now tick) s))
    (handedOn (run Date_now fuel tick s)).
Proof.
  intros Hclock. split; [|split; [|split; [|split]]].
  - intros g Hg Hnz. unfold assignGenesis. rewrite Hg. cbn.
    destruct (Z.eqb_spec g 0); [contradiction|]. exact Hg.
  - intros Hf. unfold assignGenesis. rewrite Hf. reflexivity.
  - intros k. apply splitScriptByLength_genesis.
  - intros c ph Hph. exact (splitScriptByWidth_genesis s c ph Hph).
  - rewrite assignGenesis_genesis. now apply run_genesis.
Qed.

Lemma genesis_is_kept_witness :
  (forall g, _genesis twoMinutes = Some g -> g <> 0 ->
     _genesis (assignGenesis 1000 twoMinutes) = Some g) /\
  (truthy (_genesis twoMinutes) = false ->
     _genesis (assignGenesis 1000 twoMinutes) = Some 1000) /\
  (forall k, _genesis (splitScriptByLength twoMinutes k).1 = _genesis twoMinutes /\
             _genesis (splitScriptByLength twoMinutes k).2 = _genesis twoMinutes) /\
  (forall c ph, (splitScriptByWidth twoMinutes c).2 = Ok ph ->
     _genesis (chunk_script ph) = _genesis twoMinutes /\
     _genesis (remainder_script ph) = _genesis twoMinutes) /\
  Forall (fun s' => _genesis s' = _genesis (assignGenesis 1000 twoMinutes))
    (handedOn (run (fun _ => 1000) 1 0 twoMinutes)).
Proof.
  apply (genesis_is_kept (fun _ => 1000) 1 0 twoMinutes).
  intros n. lia.
Defined.

Example twoMinutes_handed_on :
  handedOn (run (fun _ => 1000) 1 0 twoMinutes) =
  [mkScript None (Some [constantRate 10 120]) (Some 42) (Some 1000) false].
Proof. vm_compute. reflexivity. Qed.

(** ** The phase that [splitPhaseByWidth] is handed *)

Lemma dropFlatRamp_flat (p : phase) (v : Z) :
  p !! "rampTo" = Some v -> p !! "arrivalRate" = Some v ->
  dropFlatRamp p = delete "rampTo" p.
Proof.
  intros Hr Ha. unfold dropFlatRamp. rewrite Hr, Ha, Z.eqb_refl. reflexivity.
Qed.

Lemma alloc_fresh (h : Store.store) (p : phase) :
  ((Store.alloc h p).2 ∉ dom h) /\
  (Store.alloc h p).1 !! (Store.alloc h p).2 = Some p /\
  (forall l, l ∈ dom h -> (Store.alloc h p).1 !! l = h !! l) /\
  dom (Store.alloc h p).1 = {[ (Store.alloc h p).2 ]} ∪ dom h.
Proof.
  unfold Store.alloc. cbn [fst snd].
  pose proof (is_fresh (dom h)) as Hfresh.
  split; [exact Hfresh|]. split; [apply lookup_insert_eq|]. split.
  - intros l Hl. apply lookup_insert_ne. intros Heq. subst l. contradiction.
  - apply dom_insert_L.
Qed.

(** Allocation hands out references that were not in use, pairwise
    different, holding the given phases, and leaves the objects already
    in the store alone. *)
Lemma allocAll_spec (ps : list phase) :
  forall (h : Store.store),
    let r := Store.allocAll h ps in
    Forall (fun l => l ∉ dom h) r.2 /\
    NoDup r.2 /\
    (forall l, l ∈ dom h -> r.1 !! l = h !! l) /\
    (dom h ⊆ dom r.1) /\
    Forall2 (fun l p => r.1 !! l = Some p) r.2 ps.
Proof.
  induction ps as [|p ps IH]; intros h; cbn [Store.allocAll].
  - cbn. repeat split; try constructor. set_solver.
  - destruct (alloc_fresh h p) as (Hf & Hl & Hold & _).
    destruct (Store.alloc h p) as [h1 l1] eqn:Ha. cbn [fst snd] in Hf, Hl, Hold.
    specialize (IH h1). cbv zeta in IH.
    destruct (Store.allocAll h1 ps) as [h2 ls] eqn:Hb. cbn [fst snd] in IH |- *.
    destruct IH as (IH1 & IH2 & IH3 & IH4 & IH5).
    assert (Hl1 : l1 ∈ dom h1) by (apply elem_of_dom; eauto).
    assert (Hsub : forall l, l ∈ dom h -> l ∈ dom h1).
    { intros l Hin. apply elem_of_dom. rewrite Hold by exact Hin.
      now apply elem_of_dom. }
    split; [|split; [|split; [|split]]].
    + constructor; [exact Hf|].
      eapply Forall_impl; [exact IH1|]. cbv beta. intros l Hn Hin.
      apply Hn, Hsub, Hin.
    + constructor; [|exact IH2].
      intros Hin. rewrite Forall_forall in IH1. apply (IH1 _ Hin). exact Hl1.
    + intros l Hin. rewrite IH3 by apply Hsub, Hin. now apply Hold.
    + intros l Hin. apply IH4, Hsub, Hin.
    + constructor; [|exact IH5]. rewrite IH3 by exact Hl1. exact Hl.
Qed.

Lemma allocAll_length (ps : list phase) (h : Store.store) :
  length (Store.allocAll h ps).2 = length ps.
Proof.
  destruct (allocAll_spec ps h) as (_ & _ & _ & _ & H).
  now apply Forall2_length in H.
Qed.

(** C10. [splitPhaseByWidth] mutates its input: called on a phase object
    that has [rampTo] equal to [arrivalRate], it leaves that very object
    without [rampTo] (so the caller's phase has changed), while every
    sub-phase it emits is a newly allocated object, different from the
    input and from every object that existed, and all other objects are
    as they were. *)
Theorem splitPhaseByWidth_mutates_input
    (h : Store.store) (l : Store.loc) (p : phase) (v chunkSize : Z) :
  h !! l = Some p ->
  p !! "rampTo" = Some v ->
  p !! "arrivalRate" = Some v ->
  let r := Store.splitPhaseByWidth_at h l chunkSize in
  r.1 !! l = Some (delete "rampTo" p) /\
  r.1 !! l <> h !! l /\
  (splitPhaseByWidth p chunkSize).1 = delete "rampTo" p /\
  (forall l', l' ∈ dom h -> l' <> l -> r.1 !! l' = h !! l') /\
  (forall cs rs, r.2 = Ok (cs, rs) ->
     NoDup (cs ++ rs) /\
     Forall (fun l' => l' <> l /\ (l' ∉ dom h) /\ is_Some (r.1 !! l')) (cs ++ rs)) /\
  (is_Some (p !! "duration") -> exists cs rs, r.2 = Ok (cs, rs) /\ cs <> []).
Proof.
  intros Hl Hr Ha r.
  assert (Hin : l ∈ dom h) by (apply elem_of_dom; eauto).
  assert (Hne : Some (delete "rampTo" p) <> Some p).
  { intros [= Heq]. apply (f_equal (fun m : gmap string Z => m !! "rampTo")) in Heq.
    rewrite lookup_delete_eq, Hr in Heq. discriminate Heq. }
  subst r. unfold Store.splitPhaseByWidth_at, splitPhaseByWidth.
  rewrite Hl, (dropFlatRamp_flat p v Hr Ha).
  set (p' := delete "rampTo" p) in *.
  set (h0 := <[l := p']> h).
  assert (Hh0 : h0 !! l = Some p') by apply lookup_insert_eq.
  assert (Hdom0 : dom h0 = dom h).
  { unfold h0. rewrite dom_insert_L. apply subseteq_union_1_L.
    now apply singleton_subseteq_l. }
  assert (Hold0 : forall l', l' <> l -> h0 !! l' = h !! l').
  { intros l' Hl'. unfold h0. now rewrite lookup_insert_ne. }
  destruct (splitPhaseByWidth_parts p' chunkSize) as [ph| | |] eqn:Hparts; cbn [fst snd].
  - pose proof (allocAll_spec (chunk ph) h0) as H1. cbv zeta in H1.
    destruct (Store.allocAll h0 (chunk ph)) as [h1 cs] eqn:Hcs. cbn [fst snd] in H1.
    destruct H1 as (F1 & N1 & O1 & D1 & L1).
    pose proof (allocAll_spec (remainder ph) h1) as H2. cbv zeta in H2.
    destruct (Store.allocAll h1 (remainder ph)) as [h2 rs] eqn:Hrs. cbn [fst snd] in H2.
    destruct H2 as (F2 & N2 & O2 & D2 & L2).
    rewrite Hdom0 in F1, O1, D1.
    assert (Hkeep : forall l', l' ∈ dom h -> h2 !! l' = h0 !! l').
    { intros l' Hl'. rewrite O2 by (apply D1, Hl'). now apply O1. }
    split; [rewrite Hkeep by exact Hin; exact Hh0|].
    split; [rewrite Hkeep by exact Hin; rewrite Hh0; exact Hne|].
    split; [reflexivity|].
    split; [intros l' Hl' Hneq; rewrite Hkeep by exact Hl'; now apply Hold0|].
    split.
    + intros cs' rs' [= <- <-]. split.
      * apply NoDup_app. split; [exact N1|]. split; [|exact N2].
        intros x Hx1 Hx2. rewrite Forall_forall in F2. apply (F2 x Hx2).
        apply list_elem_of_lookup in Hx1 as [i Hi].
        destruct (Forall2_lookup_l _ _ _ i x L1 Hi) as (q & _ & Hq).
        apply elem_of_dom. eauto.
      * apply Forall_app. split.
        -- rewrite Forall_forall in F1 |- *. intros x Hx.
           split; [intros ->; now apply (F1 l Hx)|]. split; [now apply F1|].
           apply list_elem_of_lookup in Hx as [i Hi].
           destruct (Forall2_lookup_l _ _ _ i x L1 Hi) as (q & _ & Hq).
           assert (x ∈ dom h1) by (apply elem_of_dom; eauto).
           rewrite O2 by assumption. eauto.
        -- rewrite Forall_forall in F2 |- *. intros x Hx.
           assert (Hx' : x ∉ dom h) by (intros Hc; apply (F2 x Hx), D1, Hc).
           split; [intros ->; contradiction|]. split; [exact Hx'|].
           apply list_elem_of_lookup in Hx as [i Hi].
           destruct (Forall2_lookup_l _ _ _ i x L2 Hi) as (q & _ & Hq). eauto.
    + intros [d Hd].
      exists cs, rs. split; [reflexivity|].
      assert (Hlen : length cs = length (chunk ph)).
      { pose proof (allocAll_length (chunk ph) h0) as E. now rewrite Hcs in E. }
      revert Hparts. unfold splitPhaseByWidth_parts, p'.
      rewrite lookup_delete_eq, lookup_delete_ne, Ha by done.
      unfold get. rewrite lookup_delete_ne, Hd by done. cbn.
      destruct (chunkSize <? v); intros [= <-]; destruct cs; cbn in Hlen; congruence.
  - split; [exact Hh0|]. split; [rewrite Hh0; exact Hne|]. split; [reflexivity|].
    split; [intros; now apply Hold0|]. split; [discriminate|].
    intros [d Hd]. exfalso. revert Hparts. unfold splitPhaseByWidth_parts, p'.
    rewrite lookup_delete_eq, lookup_delete_ne, Ha by done.
    unfold get. rewrite lookup_delete_ne, Hd by done. cbn.
    destruct (chunkSize <? v); discriminate.
  - split; [exact Hh0|]. split; [rewrite Hh0; exact Hne|]. split; [reflexivity|].
    split; [intros; now apply Hold0|]. split; [discriminate|].
    intros [d Hd]. exfalso. revert Hparts. unfold splitPhaseByWidth_parts, p'.
    rewrite lookup_delete_eq, lookup_delete_ne, Ha by done.
    unfold get. rewrite lookup_delete_ne, Hd by done. cbn.
    destruct (chunkSize <? v); discriminate.
  - split; [exact Hh0|]. split; [rewrite Hh0; exact Hne|]. split; [reflexivity|].
    split; [intros; now apply Hold0|]. split; [discriminate|].
    intros [d Hd]. exfalso. revert Hparts. unfold splitPhaseByWidth_parts, p'.
    rewrite lookup_delete_eq, lookup_delete_ne, Ha by done.
    unfold get. rewrite lookup_delete_ne, Hd by done. cbn.
    destruct (chunkSize <? v); discriminate.
Qed.

Lemma splitPhaseByWidth_mutates_input_witness :
  let h : Store.store := {[ 1%positive := flatRamp ]} in
  let r := Store.splitPhaseByWidth_at h 1%positive 25 in
  r.1 !! 1%positive = Some (delete "rampTo" flatRamp) /\
  r.1 !! 1%positive <> h !! 1%positive /\
  (splitPhaseByWidth flatRamp 25).1 = delete "rampTo" flatRamp /\
  (forall l', l' ∈ dom h -> l' <> 1%positive -> r.1 !! l' = h !! l') /\
  (forall cs rs, r.2 = Ok (cs, rs) ->
     NoDup (cs ++ rs) /\
     Forall (fun l' => l' <> 1%positive /\ (l' ∉ dom h) /\ is_Some (r.1 !! l'))
       (cs ++ rs)) /\
  (is_Some (flatRamp !! "duration") -> exists cs rs, r.2 = Ok (cs, rs) /\ cs <> []).
Proof.
  apply (splitPhaseByWidth_mutates_input {[ 1%positive := flatRamp ]} 1%positive
           flatRamp 20 25); reflexivity.
Defined.

(** The caller's own phases after [splitScriptByWidth]: the flat ramp has
    lost its [rampTo]. *)
Example splitScriptByWidth_changes_caller :
  phases (splitScriptByWidth
            (mkScript None (Some [flatRamp]) None None false) 25).1 =
  [constantRate 20 60].
Proof. vm_compute. reflexivity. Qed.

(** ** Sub-phases and their shapes *)

Lemma copyOverwritePush_built (arr : list phase) (p : phase) (ac ar rt du pa : option Z) :
  copyOverwritePush arr p ac ar rt du pa = arr ++ [built p ac ar rt du pa].
Proof. reflexivity. Qed.

Lemma overWrite_lookup (p : phase) (f : string) (v : option Z) :
  overWrite p f v !! f = v.
Proof.
  destruct v; cbn; [apply lookup_insert_eq|apply lookup_delete_eq].
Qed.

Lemma overWrite_lookup_ne (p : phase) (f g : string) (v : option Z) :
  f <> g -> overWrite p f v !! g = p !! g.
Proof.
  intros Hne. destruct v; cbn; [now apply lookup_insert_ne|now apply lookup_delete_ne].
Qed.

Lemma built_lookup (p : phase) (ac ar rt du pa : option Z) :
  built p ac ar rt du pa !! "arrivalCount" = ac /\
  built p ac ar rt du pa !! "arrivalRate" = ar /\
  built p ac ar rt du pa !! "rampTo" = rt /\
  built p ac ar rt du pa !! "duration" = du /\
  built p ac ar rt du pa !! "pause" = pa.
Proof.
  unfold built.
  repeat split;
    repeat (rewrite overWrite_lookup_ne by discriminate);
    apply overWrite_lookup.
Qed.

Lemma classify_built (p : phase) (ac ar rt du pa : option Z) :
  classify (built p ac ar rt du pa) =
  match ar, rt, ac, du, pa with
  | Some a, None, None, Some d, None => Some (Constant a d)
  | Some a, Some r, None, Some d, None => Some (Ramp a r d)
  | None, None, Some n, Some d, None => Some (Count n d)
  | None, None, None, None, Some z => Some (Pause z)
  | _, _, _, _, _ => None
  end.
Proof.
  destruct (built_lookup p ac ar rt du pa) as (H1 & H2 & H3 & H4 & H5).
  unfold classify. rewrite H1, H2, H3, H4, H5. reflexivity.
Qed.

(** The fields behind a shape. *)
Lemma classify_fields (p : phase) (sh : shape) :
  classify p = Some sh ->
  match sh with
  | Constant a d =>
      p !! "arrivalRate" = Some a /\ p !! "rampTo" = None /\
      p !! "arrivalCount" = None /\ p !! "duration" = Some d /\ p !! "pause" = None
  | Ramp a r d =>
      p !! "arrivalRate" = Some a /\ p !! "rampTo" = Some r /\
      p !! "arrivalCount" = None /\ p !! "duration" = Some d /\ p !! "pause" = None
  | Count n d =>
      p !! "arrivalRate" = None /\ p !! "rampTo" = None /\
      p !! "arrivalCount" = Some n /\ p !! "duration" = Some d /\ p !! "pause" = None
  | Pause z =>
      p !! "arrivalRate" = None /\ p !! "rampTo" = None /\
      p !! "arrivalCount" = None /\ p !! "duration" = None /\ p !! "pause" = Some z
  end.
Proof.
  unfold classify.
  destruct (p !! "arrivalRate"), (p !! "rampTo"), (p !! "arrivalCount"),
    (p !! "duration"), (p !! "pause"); intros [= <-]; repeat split; reflexivity.
Qed.


Lemma phaseWidth_classify (p : phase) (sh : shape) :
  classify p = Some sh -> phaseWidth p = widthOf sh.
Proof.
  intros H. apply classify_fields in H. unfold phaseWidth, has.
  destruct sh; destruct H as (H1 & H2 & H3 & H4 & H5);
    rewrite ?H1, ?H2, ?H3, ?H4, ?H5; reflexivity.
Qed.

Lemma phaseLength_classify (p : phase) (sh : shape) :
  classify p = Some sh -> phaseLength p = lengthOf sh.
Proof.
  intros H. apply classify_fields in H. unfold phaseLength.
  destruct sh; destruct H as (H1 & H2 & H3 & H4 & H5);
    rewrite ?H1, ?H2, ?H3, ?H4, ?H5; reflexivity.
Qed.

(** ** The width split, shape by shape *)

Lemma classify_dropFlatRamp (p : phase) (sh : shape) :
  classify p = Some sh -> classify (dropFlatRamp p) = Some (normShape sh).
Proof.
  intros H. pose proof (classify_fields p sh H) as F. unfold dropFlatRamp.
  destruct sh as [a d|a r d|n d|z]; destruct F as (H1 & H2 & H3 & H4 & H5);
    rewrite H1, H2; try exact H.
  cbn [normShape]. destruct (r =? a); [|exact H].
  unfold classify.
  rewrite lookup_delete_eq, !lookup_delete_ne, H1, H3, H4, H5 by discriminate.
  reflexivity.
Qed.

Lemma intersection_shape (p : phase) (a r d c : Z) :
  classify p = Some (Ramp a r d) -> r <> a -> d <> 0 ->
  exists i, intersection p c = Ok i /\ x i = intersectionX a r d c.
Proof.
  intros H Hra Hd. destruct (classify_fields p _ H) as (H1 & H2 & H3 & H4 & H5).
  unfold intersection, intersectionX, get. rewrite H1, H2, H4. cbn [mbind result_bind].
  unfold intersect.
  destruct (_ =? 0) eqn:Hdet.
  - exfalso. apply Z.eqb_eq in Hdet. cbn in Hdet.
    assert (Hz : (r - a) * d = 0) by lia.
    apply Z.mul_eq_0 in Hz. lia.
  - eexists. split; reflexivity.
Qed.

(** Both arrays once the pushes are unfolded: the shapes are read off the
    overwritten fields. *)
Ltac sub_phases :=
  eexists; (split; [reflexivity|]);
  unfold addRamp, addArrivalRate, addArrivalCount, addPause;
  rewrite !copyOverwritePush_built;
  cbn [app fst snd chunk remainder];
  split; [|split];
  [ repeat (apply Forall2_cons_2; [apply classify_built|]); apply Forall2_nil_2
  | repeat (apply Forall2_cons_2; [apply classify_built|]); apply Forall2_nil_2
  | repeat (apply Forall_cons_2; [do 5 eexists; reflexivity|]); apply Forall_nil_2 ].

Lemma splitPhaseByWidth_parts_shapes (p : phase) (sh : shape) (c : Z) :
  classify p = Some sh ->
  normShape sh = sh ->
  crossable sh c ->
  exists ph,
    splitPhaseByWidth_parts p c = Ok ph /\
    shaped (chunk ph) (splitShape sh c).1 /\
    shaped (remainder ph) (splitShape sh c).2 /\
    Forall (copyOf p) (chunk ph ++ remainder ph).
Proof.
  intros H Hnorm Hcross. pose proof (classify_fields p sh H) as F.
  unfold splitPhaseByWidth_parts, get.
  destruct sh as [a d|a r d|n d|z]; destruct F as (H1 & H2 & H3 & H4 & H5);
    rewrite ?H1, ?H2, ?H3, ?H4, ?H5; cbn [mbind result_bind splitShape].
  - destruct (c <? a); sub_phases.
  - assert (Hra : r <> a).
    { cbn in Hnorm. destruct (Z.eqb_spec r a); [discriminate|assumption]. }
    destruct (Z.max a r <=? c) eqn:Hmax; [sub_phases|].
    destruct (c <=? Z.min a r) eqn:Hmin; [sub_phases|].
    assert (Hd : d <> 0).
    { apply Z.leb_gt in Hmax, Hmin. cbn in Hcross. lia. }
    destruct (intersection_shape p a r d c H Hra Hd) as (i & Hi & Hx).
    rewrite Hi. cbn [mbind result_bind]. rewrite Hx.
    destruct (a <? r); sub_phases.
  - destruct (Qle_bool _ _); sub_phases.
  - sub_phases.
Qed.

Lemma normShape_idem (sh : shape) : normShape (normShape sh) = normShape sh.
Proof.
  destruct sh as [a d|a r d|n d|z]; try reflexivity.
  cbn. destruct (r =? a) eqn:E; [reflexivity|]. cbn. now rewrite E.
Qed.

(** [splitPhaseByWidth] on a phase of one of the four shapes. *)
Lemma splitPhaseByWidth_shapes (p : phase) (sh : shape) (c : Z) :
  classify p = Some sh ->
  crossable (normShape sh) c ->
  exists ph,
    splitPhaseByWidth p c = (dropFlatRamp p, Ok ph) /\
    classify (dropFlatRamp p) = Some (normShape sh) /\
    shaped (chunk ph) (splitShape (normShape sh) c).1 /\
    shaped (remainder ph) (splitShape (normShape sh) c).2 /\
    Forall (copyOf (dropFlatRamp p)) (chunk ph ++ remainder ph).
Proof.
  intros H Hcross.
  pose proof (classify_dropFlatRamp p sh H) as Hn.
  destruct (splitPhaseByWidth_parts_shapes (dropFlatRamp p) (normShape sh) c Hn
              (normShape_idem sh) Hcross) as (ph & Hph & Hc & Hr & Hcopy).
  exists ph. unfold splitPhaseByWidth. rewrite Hph. auto.
Qed.

(** ** Arithmetic of the intersection *)

Lemma Zle_Qle_iff (a b : Z) : a <= b <-> (inject_Z a <= inject_Z b)%Q.
Proof. now rewrite Zle_Qle. Qed.

Lemma Zlt_Qlt_iff (a b : Z) : a < b <-> (inject_Z a < inject_Z b)%Q.
Proof. now rewrite Zlt_Qlt. Qed.

Lemma inject_Z_pos (d : Z) : 0 < d -> (0 < inject_Z d)%Q.
Proof. intros H. now apply (Zlt_Qlt_iff 0 d). Qed.



(** [Math.round] of the quotient [intersect] forms, as an integer
    division. *)
Lemma intersectionX_div (a r d c : Z) :
  d <> 0 -> r <> a ->
  intersectionX a r d c = (2 * d * (c - a) + (r - a)) / (2 * (r - a)).
Proof.
  intros Hd Hra. unfold intersectionX, intersect. cbn [abc A B C x y].
  destruct (_ =? 0) eqn:Hdet.
  { exfalso. apply Z.eqb_eq in Hdet.
    assert (Hz : (r - a) * d = 0) by lia.
    apply Z.mul_eq_0 in Hz. lia. }
  cbn [x]. unfold Math_round. rewrite Zdiv_Qdiv. apply Qfloor_comp.
  unfold Z.sub.
  repeat rewrite ?inject_Z_plus, ?inject_Z_mult, ?inject_Z_opp.
  assert (Hd' : ~ (inject_Z d == 0)%Q).
  { intros E. apply Hd. now apply (inject_Z_injective d 0). }
  assert (Hra' : ~ (inject_Z r - inject_Z a == 0)%Q).
  { intros E. apply Hra. apply (inject_Z_injective r a). lra. }
  change (inject_Z 0) with 0%Q. change (inject_Z 2) with 2%Q.
  field. split.
  - intros E. apply Hra'. lra.
  - intros E. ring_simplify in E.
    assert (E' : ((inject_Z r - inject_Z a) * inject_Z d == 0)%Q) by lra.
    apply Qmult_integral in E'. tauto.
Qed.

Lemma crossing_up_bounds (a r d c : Z) :
  0 <= a -> a < c -> c < r -> 0 < d ->
  0 <= intersectionX a r d c <= d /\
  (intersectionX a r d c = d -> r - c <= c).
Proof.
  intros Ha Hac Hcr Hd. rewrite intersectionX_div by lia.
  set (n := 2 * d * (c - a) + (r - a)). set (m := 2 * (r - a)).
  assert (Hm : 0 < m) by (unfold m; lia).
  pose proof (Z.mul_div_le n m Hm) as Hlo.
  pose proof (Z.mul_succ_div_gt n m Hm) as Hhi.
  assert (Hn : 0 <= n) by (unfold n; nia).
  pose proof (Z.div_pos n m Hn Hm) as Hx.
  set (q := n / m) in *.
  assert (Hqd : q <= d) by (unfold n, m in *; nia).
  split; [lia|]. intros ->. unfold n, m in *. nia.
Qed.

Lemma crossing_down_bounds (a r d c : Z) :
  0 <= r -> r < c -> c < a -> 0 < d ->
  0 <= intersectionX a r d c <= d /\
  (intersectionX a r d c = 0 -> a - c <= c).
Proof.
  intros Hr Hrc Hca Hd. rewrite intersectionX_div by lia.
  rewrite <- Z.div_opp_opp by lia.
  set (n := - (2 * d * (c - a) + (r - a))). set (m := - (2 * (r - a))).
  assert (Hm : 0 < m) by (unfold m; lia).
  pose proof (Z.mul_div_le n m Hm) as Hlo.
  pose proof (Z.mul_succ_div_gt n m Hm) as Hhi.
  assert (Hn : 0 <= n) by (unfold n; nia).
  pose proof (Z.div_pos n m Hn Hm) as Hx.
  set (q := n / m) in *.
  assert (Hqd : q <= d) by (unfold n, m in *; nia).
  split; [lia|]. intros Hq0. rewrite Hq0 in *. unfold n, m in *. nia.
Qed.

(** ** What the width split keeps true of the phases *)

Lemma validShape_ok (c : Z) (sh : shape) : validShape sh = true -> okShape c sh.
Proof.
  destruct sh as [a d|a r d|n d|z]; cbn; intros H;
    repeat (apply andb_prop in H as [H ?]); lia.
Qed.

Lemma okShape_norm (c : Z) (sh : shape) :
  okShape c sh ->
  okShape c (normShape sh) /\ crossable (normShape sh) c /\
  widthOf (normShape sh) = widthOf sh.
Proof.
  destruct sh as [a d|a r d|n d|z]; cbn; intros H; try (repeat split; tauto).
  destruct (Z.eqb_spec r a) as [->|Hne]; cbn.
  - rewrite Z.max_id. repeat split; tauto.
  - repeat split; try tauto. lia.
Qed.

Lemma widthOf_nonneg (c : Z) (sh : shape) : okShape c sh -> (0 <= widthOf sh)%Q.
Proof.
  destruct sh as [a d|a r d|n d|z]; cbn; intros H.
  - now apply (Zle_Qle_iff 0 a).
  - apply (Zle_Qle_iff 0 (Z.max a r)). lia.
  - destruct H as [Hn Hd]. apply Qle_shift_div_l; [now apply inject_Z_pos|].
    rewrite Qmult_0_l. now apply (Zle_Qle_iff 0 n).
  - apply Qle_refl.
Qed.

Lemma count_ceiling (n d c : Z) :
  0 < d ->
  Qle_bool (inject_Z c) (inject_Z n / inject_Z d) = true <-> c * d <= n.
Proof.
  intros Hd. pose proof (inject_Z_pos d Hd) as Hq.
  rewrite Qle_bool_iff, Zle_Qle_iff, inject_Z_mult. split; intros H.
  - assert (E : (inject_Z n == inject_Z n / inject_Z d * inject_Z d)%Q)
      by (field; lra).
    rewrite E. apply Qmult_le_compat_r; lra.
  - apply Qle_shift_div_l; assumption.
Qed.

Lemma Math_floor_product (c d : Z) : Math_floor (inject_Z c * inject_Z d) = c * d.
Proof. unfold Math_floor. rewrite <- inject_Z_mult. apply Qfloor_Z. Qed.

(** One goal for each shape of a list of shapes. *)
Ltac each_shape :=
  cbn [fst snd];
  repeat (apply Forall_cons_2); try (apply Forall_nil_2);
  cbn [widthOf okShape].

(** Every sub-phase on the chunk side is at most [c] wide. *)
Lemma splitShape_chunk_width (c : Z) (sh : shape) :
  1 <= c -> okShape c sh -> normShape sh = sh ->
  Forall (fun s => (0 <= widthOf s <= inject_Z c)%Q) (splitShape sh c).1.
Proof.
  intros Hc Hok Hnorm.
  assert (Hz : forall m : Z, 0 <= m <= c -> (0 <= inject_Z m <= inject_Z c)%Q).
  { intros m [H1 H2]. split;
      [exact (proj1 (Zle_Qle_iff 0 m) H1)|exact (proj1 (Zle_Qle_iff m c) H2)]. }
  destruct sh as [a d|a r d|n d|z]; cbn [splitShape okShape] in *.
  - destruct (Z.ltb_spec c a); each_shape; apply Hz; lia.
  - assert (Hra : r <> a).
    { cbn in Hnorm. destruct (Z.eqb_spec r a); [discriminate|assumption]. }
    destruct Hok as (Ha & Hr & Hd).
    destruct (Z.leb_spec (Z.max a r) c).
    { each_shape; apply Hz; unfold rampStart; destruct (Z.ltb_spec 0 a); lia. }
    destruct (Z.leb_spec c (Z.min a r)).
    { each_shape; apply Hz; lia. }
    destruct (Z.ltb_spec a r); each_shape; apply Hz;
      unfold rampStart; try destruct (Z.ltb_spec 0 a); try destruct (Z.ltb_spec 0 c);
      lia.
  - destruct Hok as [Hn Hd]. pose proof (inject_Z_pos d Hd) as Hq.
    destruct (Qle_bool _ _) eqn:Hb; each_shape.
    + rewrite Math_floor_product.
      assert (E : (inject_Z (c * d) / inject_Z d == inject_Z c)%Q)
        by (rewrite inject_Z_mult; field; lra).
      rewrite E. split; [apply (Zle_Qle_iff 0 c); lia|apply Qle_refl].
    + split.
      * apply (widthOf_nonneg c (Count n d)). cbn. tauto.
      * apply Qnot_lt_le. intros Hlt.
        assert (Ht : Qle_bool (inject_Z c) (inject_Z n / inject_Z d) = true)
          by (apply Qle_bool_iff; lra).
        congruence.
  - each_shape. split; [apply Qle_refl|apply (Zle_Qle_iff 0 c); lia].
Qed.

(** The remainder side again consists of phases the loop can take. *)
Lemma splitShape_remainder_ok (c : Z) (sh : shape) :
  1 <= c -> okShape c sh -> normShape sh = sh ->
  Forall (okShape c) (splitShape sh c).2.
Proof.
  intros Hc Hok Hnorm.
  destruct sh as [a d|a r d|n d|z]; cbn [splitShape okShape] in *.
  - destruct (Z.ltb_spec c a); each_shape; lia.
  - assert (Hra : r <> a).
    { cbn in Hnorm. destruct (Z.eqb_spec r a); [discriminate|assumption]. }
    destruct Hok as (Ha & Hr & Hd).
    destruct (Z.leb_spec (Z.max a r) c); [each_shape; exact I|].
    destruct (Z.leb_spec c (Z.min a r)).
    { each_shape. unfold rampStart. destruct (Z.ltb_spec 0 (a - c)); lia. }
    assert (Hd' : 0 < d) by lia.
    destruct (Z.ltb_spec a r).
    + destruct (crossing_up_bounds a r d c) as [Hx Hxd]; try lia.
      each_shape; [exact I|]. unfold rampStart. cbn [Z.ltb Z.compare].
      destruct (Z.eq_dec (intersectionX a r d c) d) as [E|E]; lia.
    + destruct (crossing_down_bounds a r d c) as [Hx Hxd]; try lia.
      each_shape; [|exact I]. unfold rampStart.
      destruct (Z.ltb_spec 0 (a - c)); [|lia].
      destruct (Z.eq_dec (intersectionX a r d c) 0) as [E|E]; lia.
  - destruct Hok as [Hn Hd].
    destruct (Qle_bool _ _) eqn:Hb; each_shape; [|exact I].
    rewrite Math_floor_product. apply count_ceiling in Hb; lia.
  - each_shape; exact I.
Qed.

(** The remainder is exactly [c] narrower: it fits under a bound [b]
    when the phase fits under [b + c]. *)
Lemma splitShape_remainder_width (c : Z) (sh : shape) (b : Q) :
  1 <= c -> okShape c sh -> normShape sh = sh -> (0 <= b)%Q ->
  Forall (fun s => (widthOf s <= b)%Q) (splitShape sh c).2 <->
  (widthOf sh <= b + inject_Z c)%Q.
Proof.
  intros Hc Hok Hnorm Hb.
  pose proof (inject_Z_pos c ltac:(lia)) as Hcq.
  assert (Hone : forall (m k : Z), m = k - c ->
            (inject_Z m <= b)%Q <-> (inject_Z k <= b + inject_Z c)%Q).
  { intros m k ->. unfold Z.sub. rewrite inject_Z_plus, inject_Z_opp.
    split; intros; lra. }
  assert (Hsmall : forall k : Z, k <= c -> (inject_Z k <= b + inject_Z c)%Q).
  { intros k Hk. apply Zle_Qle_iff in Hk. lra. }
  destruct sh as [a d|a r d|n d|z]; cbn [splitShape okShape] in *.
  - destruct (Z.ltb_spec c a); cbn [snd]; rewrite Forall_singleton; cbn [widthOf].
    + apply Hone. reflexivity.
    + split; intros _; [now apply Hsmall|exact Hb].
  - assert (Hra : r <> a).
    { cbn in Hnorm. destruct (Z.eqb_spec r a); [discriminate|assumption]. }
    destruct Hok as (Ha & Hr & Hd). cbn [widthOf].
    destruct (Z.leb_spec (Z.max a r) c); cbn [snd].
    { rewrite Forall_singleton. cbn [widthOf].
      split; intros _; [now apply Hsmall|exact Hb]. }
    destruct (Z.leb_spec c (Z.min a r)); cbn [snd].
    { rewrite Forall_singleton. cbn [widthOf]. apply Hone.
      unfold rampStart. destruct (Z.ltb_spec 0 (a - c)); lia. }
    destruct (Z.ltb_spec a r); cbn [snd];
      rewrite !Forall_cons, Forall_nil; cbn [widthOf].
    + rewrite (Hone (Z.max (rampStart 1) (r - c)) (Z.max a r)) by (cbn; lia).
      tauto.
    + rewrite (Hone (Z.max (rampStart (a - c)) 1) (Z.max a r)); [tauto|].
      unfold rampStart. destruct (Z.ltb_spec 0 (a - c)); lia.
  - destruct Hok as [Hn Hd]. pose proof (inject_Z_pos d Hd) as Hq. cbn [widthOf].
    destruct (Qle_bool _ _) eqn:Hbool; cbn [snd]; rewrite Forall_singleton; cbn [widthOf].
    + rewrite Math_floor_product.
      assert (E : (inject_Z (n - c * d) / inject_Z d ==
                   inject_Z n / inject_Z d - inject_Z c)%Q).
      { unfold Z.sub. rewrite inject_Z_plus, inject_Z_opp, inject_Z_mult. field. lra. }
      rewrite E. split; intros; lra.
    + split; intros _; [|exact Hb].
      assert (Hlt : (inject_Z n / inject_Z d < inject_Z c)%Q).
      { apply Qnot_le_lt. intros Hle. apply Qle_bool_iff in Hle. congruence. }
      lra.
  - cbn [snd widthOf]. rewrite !Forall_cons, Forall_nil. cbn [widthOf].
    split; intros; [lra|tauto].
Qed.

(** ** The width split of a whole script *)

Lemma validPhase_ok (c : Z) (p : phase) : validPhase p = true -> okPhase c p.
Proof.
  unfold validPhase. destruct (classify p) as [sh|] eqn:H; [|discriminate].
  intros Hv. exists sh. split; [exact H|now apply validShape_ok].
Qed.

Lemma validPhases_ok (c : Z) (s : script) :
  validPhases s = true ->
  config_phases s = Some (phases s) /\ Forall (okPhase c) (phases s).
Proof.
  unfold validPhases, phases. destruct (config_phases s) as [ps|]; [|discriminate].
  intros H. split; [reflexivity|].
  apply Forall_forall. intros p Hp. apply validPhase_ok.
  rewrite forallb_forall in H. apply H. now apply list_elem_of_In.
Qed.

Lemma shaped_Forall_iff (P : phase -> Prop) (Q : shape -> Prop)
    (ps : list phase) (shs : list shape) :
  (forall p sh, classify p = Some sh -> (P p <-> Q sh)) ->
  shaped ps shs -> (Forall P ps <-> Forall Q shs).
Proof.
  intros HPQ Hs. induction Hs as [|p sh ps shs Hp _ IH].
  - split; constructor.
  - rewrite !Forall_cons, IH, (HPQ p sh Hp). reflexivity.
Qed.

Lemma okPhase_width_nonneg (c : Z) (p : phase) : okPhase c p -> (0 <= phaseWidth p)%Q.
Proof.
  intros (sh & H & Hok). rewrite (phaseWidth_classify p sh H).
  now apply (widthOf_nonneg c).
Qed.

Lemma shaped_width (P : Q -> Prop) (ps : list phase) (shs : list shape) :
  shaped ps shs ->
  Forall (fun q => P (phaseWidth q)) ps <-> Forall (fun s => P (widthOf s)) shs.
Proof.
  apply shaped_Forall_iff. intros q s Hq. now rewrite (phaseWidth_classify q s Hq).
Qed.

Lemma shaped_ok (c : Z) (ps : list phase) (shs : list shape) :
  shaped ps shs -> Forall (okPhase c) ps <-> Forall (okShape c) shs.
Proof.
  apply shaped_Forall_iff. intros q s Hq. unfold okPhase. split.
  - intros (s' & Hs' & Hk). congruence.
  - eauto.
Qed.

(** [splitPhaseByWidth] on a phase of the loop: it returns, the chunk side
    is at most [c] wide, the remainder side is [c] narrower than the phase
    and again made of phases the loop can take. *)
Lemma splitPhaseByWidth_ok (c : Z) (p : phase) :
  1 <= c -> okPhase c p ->
  exists ph,
    splitPhaseByWidth p c = (dropFlatRamp p, Ok ph) /\
    Forall (fun q => (0 <= phaseWidth q <= inject_Z c)%Q) (chunk ph) /\
    Forall (okPhase c) (remainder ph) /\
    (forall b, (0 <= b)%Q ->
       Forall (fun q => (phaseWidth q <= b)%Q) (remainder ph) <->
       (phaseWidth p <= b + inject_Z c)%Q).
Proof.
  intros Hc (sh & H & Hok).
  destruct (okShape_norm c sh Hok) as (Hok' & Hcross & Hw).
  destruct (splitPhaseByWidth_shapes p sh c H Hcross) as (ph & Hph & _ & Hcs & Hrs & _).
  exists ph. split; [exact Hph|]. split; [|split].
  - apply (shaped_width (fun w => (0 <= w <= inject_Z c)%Q) _ _ Hcs).
    apply splitShape_chunk_width; [assumption..|apply normShape_idem].
  - apply (shaped_ok c _ _ Hrs).
    apply splitShape_remainder_ok; [assumption..|apply normShape_idem].
  - intros b Hb.
    rewrite (shaped_width (fun w => (w <= b)%Q) _ _ Hrs).
    rewrite (phaseWidth_classify p sh H), <- Hw.
    apply splitShape_remainder_width; [assumption..|apply normShape_idem|assumption].
Qed.

Lemma splitScriptByWidth_loop_ok (c : Z) (ps : list phase) :
  1 <= c -> Forall (okPhase c) ps ->
  forall accC accR,
  exists cs rs,
    splitScriptByWidth_loop ps c accC accR =
      (dropFlatRamp <$> ps, Ok {| chunk := accC ++ cs; remainder := accR ++ rs |}) /\
    Forall (fun q => (0 <= phaseWidth q <= inject_Z c)%Q) cs /\
    Forall (okPhase c) rs /\
    (forall b, (0 <= b)%Q ->
       Forall (fun q => (phaseWidth q <= b)%Q) rs <->
       Forall (fun p => (phaseWidth p <= b + inject_Z c)%Q) ps).
Proof.
  intros Hc Hps. induction Hps as [|p ps Hp _ IH]; intros accC accR.
  - exists [], []. cbn. rewrite !app_nil_r. repeat split; constructor.
  - destruct (splitPhaseByWidth_ok c p Hc Hp) as (ph & Hph & H1 & H2 & H3).
    destruct (IH (accC ++ chunk ph) (accR ++ remainder ph))
      as (cs & rs & Hloop & H4 & H5 & H6).
    exists (chunk ph ++ cs), (remainder ph ++ rs).
    cbn [splitScriptByWidth_loop]. rewrite Hph, Hloop, !app_assoc.
    split; [reflexivity|]. split; [|split].
    + apply Forall_app; split; assumption.
    + apply Forall_app; split; assumption.
    + intros b Hb. rewrite Forall_app, Forall_cons, (H3 b Hb), (H6 b Hb). reflexivity.
Qed.

(** The value of [scriptWidth] on phases of width at least [0]: it is the
    least bound of their widths (and of the starting value). *)
Lemma scriptWidth_loop_bound (ps : list phase) :
  Forall (fun p => (0 <= phaseWidth p)%Q) ps ->
  forall (i : Z) (ret b : Q),
    (scriptWidth_loop ps i ret <= b)%Q <->
    (ret <= b)%Q /\ Forall (fun p => (phaseWidth p <= b)%Q) ps.
Proof.
  intros Hps. induction Hps as [|p ps Hp _ IH]; intros i ret b; cbn [scriptWidth_loop].
  - rewrite Forall_nil. tauto.
  - destruct (Qlt_le_dec (phaseWidth p) 0) as [Hneg|_]; [lra|].
    rewrite IH, Q.max_lub_iff, Forall_cons. tauto.
Qed.

Lemma scriptWidth_bound (s : script) (b : Q) :
  Forall (fun p => (0 <= phaseWidth p)%Q) (phases s) -> (0 <= b)%Q ->
  (scriptWidth s <= b)%Q <-> Forall (fun p => (phaseWidth p <= b)%Q) (phases s).
Proof.
  intros Hps Hb. unfold scriptWidth. rewrite scriptWidth_loop_bound by assumption.
  tauto.
Qed.

(** [splitScriptByWidth] on a script of phases the loop can take. *)
Lemma splitScriptByWidth_ok (c : Z) (s : script) :
  1 <= c -> Forall (okPhase c) (phases s) ->
  exists ph,
    splitScriptByWidth s c = (set_phases (dropFlatRamp <$> phases s) s, Ok ph) /\
    chunk_script ph = set_phases (phases (chunk_script ph)) s /\
    remainder_script ph = set_phases (phases (remainder_script ph)) s /\
    Forall (fun q => (0 <= phaseWidth q <= inject_Z c)%Q) (phases (chunk_script ph)) /\
    Forall (okPhase c) (phases (remainder_script ph)) /\
    (forall b, (0 <= b)%Q ->
       (scriptWidth (remainder_script ph) <= b)%Q <->
       (scriptWidth s <= b + inject_Z c)%Q).
Proof.
  intros Hc Hps.
  destruct (splitScriptByWidth_loop_ok c (phases s) Hc Hps [] [])
    as (cs & rs & Hloop & H1 & H2 & H3).
  unfold splitScriptByWidth. rewrite Hloop. cbn [mbind result_bind app].
  eexists. split; [reflexivity|]. cbn [chunk_script remainder_script chunk remainder].
  split; [reflexivity|]. split; [reflexivity|]. split; [exact H1|]. split; [exact H2|].
  intros b Hb.
  assert (Hc' : (0 < inject_Z c)%Q) by (apply inject_Z_pos; lia).
  rewrite scriptWidth_bound; [|cbn; eapply Forall_impl; [exact H2|];
                               apply okPhase_width_nonneg|assumption].
  rewrite scriptWidth_bound; [|eapply Forall_impl; [exact Hps|];
                               apply okPhase_width_nonneg|lra].
  cbn [phases config_phases set_phases]. now apply H3.
Qed.



(** ** Counting the rounds of the width loop *)







Lemma assignGenesis_phases (timeNow : Z) (s : script) :
  phases (assignGenesis timeNow s) = phases s.
Proof. unfold assignGenesis. destruct (truthy (_genesis s)); reflexivity. Qed.

Lemma start_unless_set_phases (t : option Z) (s : script) :
  phases (if truthy (_start s) then s else set_start t s) = phases s.
Proof. destruct (truthy (_start s)); reflexivity. Qed.

Section WidthBranch.

Variable Date_now : nat -> Z.


End WidthBranch.


(** Scenario S3: four chunks of 25 requests per second, all starting
    together. *)
Example scenario_S3 :
  run (fun _ => 1000) 5 0 wideScript =
  WidthDispatched 4
    (replicate 4
       (invokeSelf (Some 1000)
          (mkScript None (Some [constantRate 25 60]) (Some 1000) (Some 16000) false))).
Proof. vm_compute. reflexivity. Qed.

(** ** A ceiling that is not positive *)




(** ** Scripts that are already small *)






Lemma scriptWidth_nonneg (s : script) :
  Forall (fun p => (0 <= phaseWidth p)%Q) (phases s) -> (0 <= scriptWidth s)%Q.
Proof.
  intros Hnn. unfold scriptWidth.
  apply (proj1 (scriptWidth_loop_bound (phases s) Hnn 0 0%Q
                  (scriptWidth_loop (phases s) 0 0%Q)) (Qle_refl _)).
Qed.





(** ** The rate curve across a width split *)


Lemma unit_interval (t : Q) (d : Z) :
  0 < d -> (0 <= t <= inject_Z d)%Q -> (0 <= t / inject_Z d <= 1)%Q.
Proof.
  intros Hd [H0 H1]. pose proof (inject_Z_pos d Hd) as Hq. split.
  - apply Qle_shift_div_l; [assumption|lra].
  - apply Qle_shift_div_r; [assumption|lra].
Qed.











(** * Further properties of the code *)

(** ** Settings and the validator *)

(** X1. [getSettings] never yields a setting of [0]: an override of [0]
    is falsy and leaves the default, so [run] never divides the width by
    a ceiling of [0]. *)
Theorem getSettings_nonzero (s : script) :
  maxScriptDurationInSeconds (getSettings s) <> 0 /\
  maxScriptRequestsPerSecond (getSettings s) <> 0 /\
  maxChunkDurationInSeconds (getSettings s) <> 0 /\
  maxChunkRequestsPerSecond (getSettings s) <> 0 /\
  timeBufferInMilliseconds (getSettings s) <> 0.
Proof.
  unfold getSettings. cbn.
  repeat split; apply override_nonzero; discriminate.
Qed.





(** X3. [validScript] calls the callback exactly once when it answers
    [false] and not at all when it answers [true]. *)
Theorem validScript_one_message (s : script) :
  ((validScript s).1 = true /\ (validScript s).2 = []) \/
  ((validScript s).1 = false /\ length (validScript s).2 = 1%nat).
Proof.
  unfold validScript.
  destruct (_split s) as [[|o]|]; [right; split; reflexivity| |].
  all: destruct (negb (maxChunkDurationInSeconds (getSettings s) =? 0) && _);
    [right; split; reflexivity|].
  all: destruct (negb (maxScriptDurationInSeconds (getSettings s) =? 0) && _);
    [right; split; reflexivity|].
  all: destruct (negb (maxScriptRequestsPerSecond (getSettings s) =? 0) && _);
    [right; split; reflexivity|].
  all: destruct (config_phases s) as [[|p ps]|];
    [right; split; reflexivity| |right; split; reflexivity].
  all: destruct (scriptLength s <? 0); [right; split; reflexivity|].
  all: destruct (_ <? scriptLength s); [right; split; reflexivity|].
  all: destruct (Qlt_le_dec (scriptWidth s) 0); [right; split; reflexivity|].
  all: destruct (Qlt_le_dec _ (scriptWidth s)); [right; split; reflexivity|].
  all: left; split; reflexivity.
Qed.

(** ** Lengths and widths of a script *)

Lemma scriptLength_at_invalid (s : script) (ps : list phase) (p : phase)
    (rest : list phase) :
  config_phases s = Some (ps ++ p :: rest) ->
  Forall (fun q => 0 <= phaseLength q) ps ->
  phaseLength p < 0 ->
  scriptLength s = - Z.of_nat (length ps).
Proof.
  intros Hs Hall Hp. unfold scriptLength, phases. rewrite Hs.
  rewrite (scriptLength_later_phase_invalid ps p rest 0 0 Hall Hp). lia.
Qed.

Lemma forallb_nonneg_length (ps : list phase) :
  forallb (fun q => 0 <=? phaseLength q) ps = true ->
  Forall (fun q => 0 <= phaseLength q) ps.
Proof.
  intros Hps. apply Forall_forall. intros q Hq. rewrite forallb_forall in Hps.
  apply Z.leb_le, Hps. now apply list_elem_of_In.
Qed.

(** X4. [scriptLength] answers minus the index of the first phase that
    has neither [duration] nor [pause] (nor a negative one), whatever
    follows that phase; for index [0] this is [0]. *)
Theorem scriptLength_first_invalid (s : script) (ps : list phase) (p : phase)
    (rest : list phase) :
  config_phases s = Some (ps ++ p :: rest) ->
  forallb (fun q => 0 <=? phaseLength q) ps = true ->
  phaseLength p < 0 ->
  scriptLength s = - Z.of_nat (length ps).
Proof.
  intros Hs Hps Hp.
  apply (scriptLength_at_invalid s ps p rest Hs); [|exact Hp].
  now apply forallb_nonneg_length.
Qed.

Lemma scriptLength_first_invalid_witness :
  scriptLength
    (defaultScript ([constantRate 1 30; pauseFor 5] ++ <["arrivalRate" := 5]> ∅ :: []))
  = - Z.of_nat (length [constantRate 1 30; pauseFor 5]).
Proof.
  apply (scriptLength_first_invalid _ [constantRate 1 30; pauseFor 5]
           (<["arrivalRate" := 5]> ∅) []); reflexivity.
Defined.

(** X5. From index [1] on [validScript] (with the default settings)
    rejects a script at the first phase without a length and shows that
    very phase in its message. *)
Theorem validScript_reports_phase_without_length (s : script) (q : phase)
    (ps : list phase) (p : phase) (rest : list phase) :
  _split s = None ->
  config_phases s = Some ((q :: ps) ++ p :: rest) ->
  forallb (fun q => 0 <=? phaseLength q) (q :: ps) = true ->
  phaseLength p < 0 ->
  validScript s = (false, [InvalidDuration (Some p)]).
Proof.
  intros Hsplit Hs Hps Hp.
  pose proof (scriptLength_at_invalid s (q :: ps) p rest Hs
                (forallb_nonneg_length _ Hps) Hp) as Hlen.
  unfold validScript. rewrite Hsplit.
  assert (Hcfg : getSettings s = getSettings (defaultScript [])).
  { apply getSettings_split. exact Hsplit. }
  rewrite Hcfg. cbn [getSettings defaultScript _split]. cbv beta.
  change (negb (maxChunkDurationInSeconds (getSettings (defaultScript [])) =? 0) &&
          negb (within (maxChunkDurationInSeconds (getSettings (defaultScript [])))
                  constants.MAX_CHUNK_DURATION_IN_SECONDS)) with false.
  change (negb (maxScriptDurationInSeconds (getSettings (defaultScript [])) =? 0) &&
          negb (within (maxScriptDurationInSeconds (getSettings (defaultScript [])))
                  constants.MAX_SCRIPT_DURATION_IN_SECONDS)) with false.
  change (negb (maxScriptRequestsPerSecond (getSettings (defaultScript [])) =? 0) &&
          negb (within (maxScriptRequestsPerSecond (getSettings (defaultScript [])))
                  constants.MAX_SCRIPT_REQUESTS_PER_SECOND)) with false.
  cbv iota. rewrite Hs. cbn [app]. rewrite Hlen.
  destruct (Z.ltb_spec (- Z.of_nat (length (q :: ps))) 0) as [_|Hge];
    [|cbn [length] in Hge; lia].
  do 3 f_equal. unfold at_index.
  replace (- Z.of_nat (length (q :: ps)) * -1) with (Z.of_nat (length (q :: ps))) by lia.
  rewrite Qfloor_Z, Nat2Z.id.
  change (q :: ps ++ p :: rest) with ((q :: ps) ++ p :: rest).
  rewrite lookup_app_r by lia. now rewrite Nat.sub_diag.
Qed.

Lemma validScript_reports_phase_without_length_witness :
  validScript
    (defaultScript ((constantRate 1 30 :: [pauseFor 5]) ++ <["arrivalRate" := 5]> ∅ :: []))
  = (false, [InvalidDuration (Some (<["arrivalRate" := 5]> ∅))]).
Proof.
  apply (validScript_reports_phase_without_length _ (constantRate 1 30) [pauseFor 5]
           (<["arrivalRate" := 5]> ∅) []); reflexivity.
Defined.

(** X6. A first phase without any means to determine its requests per
    second hides itself and every later phase from [scriptWidth], which
    answers [-1 * 0]; [validScript] then never reports an invalid width. *)
Theorem scriptWidth_first_phase_invalid (s : script) (p : phase) (rest : list phase) :
  config_phases s = Some (p :: rest) ->
  (phaseWidth p < 0)%Q ->
  scriptWidth s = 0%Q /\
  forall o, (validScript s).2 <> [InvalidRequestsPerSecond o].
Proof.
  intros Hs Hp.
  assert (Hw : scriptWidth s = 0%Q).
  { unfold scriptWidth, phases. rewrite Hs. cbn [scriptWidth_loop].
    destruct (Qlt_le_dec (phaseWidth p) 0); [reflexivity|lra]. }
  split; [exact Hw|]. intros o.
  unfold validScript. rewrite Hw, Hs.
  destruct (_split s) as [[|o']|]; [discriminate| |].
  all: destruct (negb (maxChunkDurationInSeconds (getSettings s) =? 0) && _);
    [discriminate|].
  all: destruct (negb (maxScriptDurationInSeconds (getSettings s) =? 0) && _);
    [discriminate|].
  all: destruct (negb (maxScriptRequestsPerSecond (getSettings s) =? 0) && _);
    [discriminate|].
  all: destruct (scriptLength s <? 0); [discriminate|].
  all: destruct (_ <? scriptLength s); [discriminate|].
  all: destruct (Qlt_le_dec 0 0) as [Hlt|_]; [exfalso; lra|].
  all: destruct (Qlt_le_dec _ 0); discriminate.
Qed.

Lemma scriptWidth_first_phase_invalid_witness :
  scriptWidth (defaultScript [<["duration" := 10]> ∅; constantRate 9000 10]) = 0%Q /\
  forall o,
    (validScript (defaultScript [<["duration" := 10]> ∅; constantRate 9000 10])).2
    <> [InvalidRequestsPerSecond o].
Proof.
  apply (scriptWidth_first_phase_invalid _ (<["duration" := 10]> ∅)
           [constantRate 9000 10]); reflexivity.
Defined.

(** X7. On phases that all have a width, [scriptWidth] is their maximum:
    no phase is wider, and the value is [0] or the width of one of the
    phases. *)
Theorem scriptWidth_is_maximum (s : script) :
  forallb (fun p => Qle_bool 0 (phaseWidth p)) (phases s) = true ->
  Forall (fun p => (phaseWidth p <= scriptWidth s)%Q) (phases s) /\
  ((scriptWidth s == 0)%Q \/
   Exists (fun p => (scriptWidth s == phaseWidth p)%Q) (phases s)).
Proof.
  intros Hall.
  assert (Hnn : Forall (fun p => (0 <= phaseWidth p)%Q) (phases s)).
  { apply Forall_forall. intros p Hp. rewrite forallb_forall in Hall.
    apply Qle_bool_iff, Hall. now apply list_elem_of_In. }
  split.
  - apply (scriptWidth_bound s (scriptWidth s) Hnn (scriptWidth_nonneg s Hnn)).
    apply Qle_refl.
  - unfold scriptWidth. clear Hall.
    assert (Hgen : forall (i : Z) (ret : Q),
              (scriptWidth_loop (phases s) i ret == ret)%Q \/
              Exists (fun p => (scriptWidth_loop (phases s) i ret == phaseWidth p)%Q)
                (phases s)).
    { induction Hnn as [|p ps Hp _ IH]; intros i ret; cbn [scriptWidth_loop].
      - left. reflexivity.
      - destruct (Qlt_le_dec (phaseWidth p) 0) as [Hneg|_]; [lra|].
        destruct (IH (i + 1) (Qmax ret (phaseWidth p))) as [Heq|Hex].
        + destruct (Q.max_spec ret (phaseWidth p)) as [[_ Hm]|[_ Hm]].
          * right. apply Exists_cons_hd. now rewrite Heq.
          * left. now rewrite Heq.
        + right. now apply Exists_cons_tl. }
    apply Hgen.
Qed.

Lemma scriptWidth_is_maximum_witness :
  Forall (fun p => (phaseWidth p <= scriptWidth rampScript)%Q) (phases rampScript) /\
  ((scriptWidth rampScript == 0)%Q \/
   Exists (fun p => (scriptWidth rampScript == phaseWidth p)%Q) (phases rampScript)).
Proof.
  apply (scriptWidth_is_maximum rampScript). reflexivity.
Defined.

(** ** Splitting a phase by length *)

Lemma isShapeField_false (f : string) :
  isShapeField f = false ->
  f <> "arrivalCount" /\ f <> "arrivalRate" /\ f <> "rampTo" /\
  f <> "duration" /\ f <> "pause".
Proof.
  unfold isShapeField, shapeFields. cbn [existsb].
  rewrite !orb_false_iff, !String.eqb_neq. tauto.
Qed.

(** X8. [splitPhaseByLength] touches the shape fields only: every other
    attribute of the phase (a name, say) is the same in the chunk and in
    the remainder. *)
Theorem splitPhaseByLength_keeps_other_fields (p : phase) (k : Z) (f : string) :
  isShapeField f = false ->
  (splitPhaseByLength p k).1 !! f = p !! f /\
  (splitPhaseByLength p k).2 !! f = p !! f.
Proof.
  intros Hf. apply isShapeField_false in Hf as (F1 & F2 & F3 & F4 & F5).
  unfold splitPhaseByLength.
  destruct (p !! "duration") as [d|].
  - destruct (p !! "rampTo"), (p !! "arrivalRate"), (p !! "arrivalCount"); cbn [fst snd];
      rewrite ?lookup_insert_ne by congruence; split; reflexivity.
  - destruct (p !! "pause"); cbn [fst snd];
      rewrite ?lookup_insert_ne by congruence; split; reflexivity.
Qed.

Lemma splitPhaseByLength_keeps_other_fields_witness :
  (splitPhaseByLength (<["weight" := 7]> (ramp 0 50 100)) 40).1 !! "weight"
  = <["weight" := 7]> (ramp 0 50 100) !! "weight" /\
  (splitPhaseByLength (<["weight" := 7]> (ramp 0 50 100)) 40).2 !! "weight"
  = <["weight" := 7]> (ramp 0 50 100) !! "weight".
Proof.
  apply (splitPhaseByLength_keeps_other_fields (<["weight" := 7]> (ramp 0 50 100)) 40
           "weight").
  reflexivity.
Defined.

Lemma Math_round_bounds (q : Q) (a b : Z) :
  (inject_Z a <= q <= inject_Z b)%Q -> a <= Math_round q <= b.
Proof.
  intros [Ha Hb]. unfold Math_round.
  pose proof (Qfloor_le (q + (1 # 2))) as Hlo.
  pose proof (Qlt_floor (q + (1 # 2))) as Hhi.
  set (m := Qfloor (q + (1 # 2))) in *.
  rewrite inject_Z_plus in Hhi. change (inject_Z 1) with 1%Q in Hhi.
  split.
  - assert (a < m + 1); [|lia]. apply Zlt_Qlt_iff.
    rewrite inject_Z_plus. change (inject_Z 1) with 1%Q. lra.
  - assert (m < b + 1); [|lia]. apply Zlt_Qlt_iff.
    rewrite inject_Z_plus. change (inject_Z 1) with 1%Q. lra.
Qed.

Lemma fraction_bounds (k d : Z) :
  0 < d -> 0 <= k <= d -> (0 <= inject_Z k / inject_Z d <= 1)%Q.
Proof.
  intros Hd [H0 H1]. apply unit_interval; [assumption|].
  split; [exact (proj1 (Zle_Qle_iff 0 k) H0)|exact (proj1 (Zle_Qle_iff k d) H1)].
Qed.

Lemma count_part_bounds (n k d : Z) :
  0 <= n -> 0 < d -> 0 <= k <= d ->
  0 <= Math_round (inject_Z n * (inject_Z k / inject_Z d)) <= n.
Proof.
  intros H0 Hd0 Hk. apply Math_round_bounds.
  pose proof (fraction_bounds k d Hd0 Hk) as [Hu0 Hu1].
  pose proof (proj1 (Zle_Qle_iff 0 n) H0) as Hnq. change (inject_Z 0) with 0%Q in *.
  split.
  - apply Qmult_le_0_compat; assumption.
  - assert (E : (inject_Z n * (inject_Z k / inject_Z d) <= 1 * inject_Z n)%Q).
    { rewrite (Qmult_comm (inject_Z n)). apply Qmult_le_compat_r; assumption. }
    lra.
Qed.

Lemma seam_bounds (a r k d : Z) :
  0 < d -> 0 <= k <= d ->
  Z.min a r
  <= Math_round (inject_Z a + inject_Z (r - a) * (inject_Z k / inject_Z d))
  <= Z.max a r.
Proof.
  intros Hd0 Hk. apply Math_round_bounds.
  pose proof (fraction_bounds k d Hd0 Hk) as [Hu0 Hu1].
  set (u := (inject_Z k / inject_Z d)%Q) in *.
  unfold Z.sub. rewrite inject_Z_plus, inject_Z_opp.
  destruct (Z.le_ge_cases a r) as [Hle|Hge].
  - rewrite Z.min_l, Z.max_r by lia.
    pose proof (proj1 (Zle_Qle_iff a r) Hle) as Hq.
    assert (E0 : (0 <= (inject_Z r + - inject_Z a) * u)%Q)
      by (apply Qmult_le_0_compat; lra).
    assert (E1 : ((inject_Z r + - inject_Z a) * u <= (inject_Z r + - inject_Z a) * 1)%Q).
    { rewrite !(Qmult_comm (inject_Z r + - inject_Z a)).
      apply Qmult_le_compat_r; lra. }
    lra.
  - rewrite Z.min_r, Z.max_l by lia.
    pose proof (proj1 (Zle_Qle_iff r a) Hge) as Hq.
    assert (E0 : (0 <= (inject_Z a + - inject_Z r) * u)%Q)
      by (apply Qmult_le_0_compat; lra).
    assert (E1 : ((inject_Z a + - inject_Z r) * u <= (inject_Z a + - inject_Z r) * 1)%Q).
    { rewrite !(Qmult_comm (inject_Z a + - inject_Z r)).
      apply Qmult_le_compat_r; lra. }
    lra.
Qed.

(** X9. Splitting a count-over-duration phase by length loses no arrival:
    the counts of chunk and remainder add up to the count of the phase,
    and for a count that is not negative and [0 <= k <= duration] neither
    part gets a negative count. *)
Theorem splitPhaseByLength_count (p : phase) (k d n : Z) :
  p !! "duration" = Some d ->
  has "rampTo" p && has "arrivalRate" p = false ->
  p !! "arrivalCount" = Some n ->
  exists m,
    (splitPhaseByLength p k).1 !! "arrivalCount" = Some m /\
    (splitPhaseByLength p k).2 !! "arrivalCount" = Some (n - m) /\
    (0 <= n -> 0 < d -> 0 <= k <= d -> 0 <= m <= n).
Proof.
  intros Hd Hramp Hn. unfold splitPhaseByLength. rewrite Hd, Hn.
  set (m := Math_round (inject_Z n * (inject_Z k / inject_Z d))).
  exists m.
  assert (Hb : 0 <= n -> 0 < d -> 0 <= k <= d -> 0 <= m <= n)
    by apply count_part_bounds.
  unfold has in Hramp.
  destruct (p !! "rampTo"), (p !! "arrivalRate"); try discriminate Hramp;
    cbn [fst snd];
    (split; [|split; [|exact Hb]]);
    rewrite lookup_insert_ne, lookup_insert_eq by discriminate; reflexivity.
Qed.

Lemma splitPhaseByLength_count_witness :
  exists m,
    (splitPhaseByLength (countOver 100 10) 3).1 !! "arrivalCount" = Some m /\
    (splitPhaseByLength (countOver 100 10) 3).2 !! "arrivalCount" = Some (100 - m) /\
    (0 <= 100 -> 0 < 10 -> 0 <= 3 <= 10 -> 0 <= m <= 100).
Proof.
  apply (splitPhaseByLength_count (countOver 100 10) 3 10 100); reflexivity.
Defined.



(** The shapes of the two parts of a length split. *)
Lemma splitPhaseByLength_shapes (p : phase) (k : Z) (sh : shape) :
  classify p = Some sh -> validShape sh = true -> 0 < k < lengthOf sh ->
  exists sh1 sh2,
    classify (splitPhaseByLength p k).1 = Some sh1 /\
    classify (splitPhaseByLength p k).2 = Some sh2 /\
    validShape sh1 = true /\ validShape sh2 = true /\
    lengthOf sh1 = k /\ lengthOf sh2 = lengthOf sh - k.
Proof.
  intros Hsh Hv Hk.
  pose proof (classify_fields p sh Hsh) as F.
  unfold splitPhaseByLength.
  destruct sh as [a d|a r d|n d|z]; destruct F as (H1 & H2 & H3 & H4 & H5);
    cbn [lengthOf] in Hk; cbn [validShape] in Hv;
    rewrite ?H1, ?H2, ?H3, ?H4, ?H5; cbn [fst snd]; unfold classify.
  - apply andb_prop in Hv as [Ha Hd]. apply Z.leb_le in Ha.
    eexists _, _. split; [simplify_map_eq; reflexivity|].
    split; [simplify_map_eq; reflexivity|]. cbn [validShape lengthOf].
    repeat split; try reflexivity;
      apply andb_true_intro; split; (apply Z.leb_le || apply Z.ltb_lt); lia.
  - apply andb_prop in Hv as [Hv Hd]. apply andb_prop in Hv as [Ha Hr].
    apply Z.leb_le in Ha, Hr. apply Z.ltb_lt in Hd.
    pose proof (seam_bounds a r k d Hd ltac:(lia)) as Hseam.
    eexists _, _. split; [simplify_map_eq; reflexivity|].
    split; [simplify_map_eq; reflexivity|]. cbn [validShape lengthOf].
    repeat split; try reflexivity;
      repeat (apply andb_true_intro; split); (apply Z.leb_le || apply Z.ltb_lt); lia.
  - apply andb_prop in Hv as [Hn Hd]. apply Z.leb_le in Hn. apply Z.ltb_lt in Hd.
    pose proof (count_part_bounds n k d Hn Hd ltac:(lia)) as Hm.
    eexists _, _. split; [simplify_map_eq; reflexivity|].
    split; [simplify_map_eq; reflexivity|]. cbn [validShape lengthOf].
    repeat split; try reflexivity;
      repeat (apply andb_true_intro; split); (apply Z.leb_le || apply Z.ltb_lt); lia.
  - apply Z.ltb_lt in Hv.
    eexists _, _. split; [simplify_map_eq; reflexivity|].
    split; [simplify_map_eq; reflexivity|]. cbn [validShape lengthOf].
    repeat split; try reflexivity; apply Z.ltb_lt; lia.
Qed.

(** X11. Splitting a valid phase by length at [0 < k < phaseLength]
    leaves two valid phases: lengths stay positive, rates and counts stay
    non-negative in spite of the rounding. *)
Theorem splitPhaseByLength_valid (p : phase) (k : Z) :
  validPhase p = true -> 0 < k < phaseLength p ->
  validPhase (splitPhaseByLength p k).1 = true /\
  validPhase (splitPhaseByLength p k).2 = true.
Proof.
  unfold validPhase at 1. destruct (classify p) as [sh|] eqn:Hsh; [|discriminate].
  intros Hv Hk. rewrite (phaseLength_classify p sh Hsh) in Hk.
  destruct (splitPhaseByLength_shapes p k sh Hsh Hv Hk)
    as (sh1 & sh2 & Hc & Hr & V1 & V2 & _).
  unfold validPhase. rewrite Hc, Hr. split; assumption.
Qed.

Lemma splitPhaseByLength_valid_witness :
  validPhase (splitPhaseByLength (countOver 7 3) 1).1 = true /\
  validPhase (splitPhaseByLength (countOver 7 3) 1).2 = true.
Proof.
  apply (splitPhaseByLength_valid (countOver 7 3) 1).
  - reflexivity.
  - vm_compute. split; reflexivity.
Defined.

(** ** Splitting a script by length *)

Lemma splitScriptByLength_loop_shape (ps : list phase) :
  forall (k : Z) (acc : list phase),
  exists n : nat,
    (splitScriptByLength_loop k acc ps = (acc ++ take n ps, drop n ps)) \/
    (exists p,
       ps !! n = Some p /\
       0 < k - totalLength (take n ps) < phaseLength p /\
       splitScriptByLength_loop k acc ps =
         (acc ++ take n ps ++ [(splitPhaseByLength p (k - totalLength (take n ps))).1],
          (splitPhaseByLength p (k - totalLength (take n ps))).2 :: drop (S n) ps)).
Proof.
  induction ps as [|p ps IH]; intros k acc.
  - exists 0%nat. left. cbn. now rewrite app_nil_r.
  - cbn [splitScriptByLength_loop].
    destruct (Z.ltb_spec 0 k) as [Hk|Hk].
    + destruct (Z.ltb_spec k (phaseLength p)) as [Hlt|Hge].
      * exists 0%nat. right. exists p. cbn [take drop totalLength foldr lookup].
        rewrite Z.sub_0_r. split; [reflexivity|]. split; [lia|reflexivity].
      * destruct (IH (k - phaseLength p) (acc ++ [p])) as [n [Hn|(q & Hq & Hr & Hn)]].
        -- exists (S n). left. rewrite Hn. cbn [take drop]. now rewrite <- app_assoc.
        -- exists (S n). right. exists q. cbn [take drop totalLength foldr].
           fold (totalLength (take n ps)).
           replace (k - (phaseLength p + totalLength (take n ps)))
             with (k - phaseLength p - totalLength (take n ps)) by lia.
           split; [exact Hq|]. split; [exact Hr|].
           rewrite Hn. now rewrite <- app_assoc.
    + exists 0%nat. left. cbn. now rewrite app_nil_r.
Qed.

(** X12. [splitScriptByLength] keeps the phases in order and splits at
    most one of them: the chunk is a prefix of the script's phases and the
    remainder the rest, or the chunk is a prefix followed by the first
    part of the next phase, cut where the budget runs out, and the
    remainder starts with the other part of that phase. *)
Theorem splitScriptByLength_prefix (s : script) (k : Z) :
  exists n : nat,
    (phases (splitScriptByLength s k).1 = take n (phases s) /\
     phases (splitScriptByLength s k).2 = drop n (phases s)) \/
    (exists p,
       phases s !! n = Some p /\
       0 < k - totalLength (take n (phases s)) < phaseLength p /\
       phases (splitScriptByLength s k).1 =
         take n (phases s)
         ++ [(splitPhaseByLength p (k - totalLength (take n (phases s)))).1] /\
       phases (splitScriptByLength s k).2 =
         (splitPhaseByLength p (k - totalLength (take n (phases s)))).2
         :: drop (S n) (phases s)).
Proof.
  destruct (splitScriptByLength_loop_shape (phases s) k []) as [n [Hn|(p & Hp & Hr & Hn)]];
    exists n; unfold splitScriptByLength; rewrite Hn;
    cbn [fst snd phases config_phases set_phases app].
  - left. split; reflexivity.
  - right. exists p. repeat split; try assumption; lia.
Qed.

(** X13. The two edges of the length split: a budget that is not
    positive moves nothing to the chunk, and a budget of at least the
    total duration (of phases of positive length) moves every phase whole
    and leaves a remainder without phases. *)
Theorem splitScriptByLength_edges (s : script) (k : Z) :
  (k <= 0 ->
   phases (splitScriptByLength s k).1 = [] /\
   phases (splitScriptByLength s k).2 = phases s) /\
  (forallb (fun p => 0 <? phaseLength p) (phases s) = true ->
   totalLength (phases s) <= k ->
   phases (splitScriptByLength s k).1 = phases s /\
   phases (splitScriptByLength s k).2 = []).
Proof.
  split.
  - intros Hk. unfold splitScriptByLength.
    cbn [fst snd phases config_phases set_phases].
    destruct (phases s) as [|p ps]; [split; reflexivity|].
    cbn [splitScriptByLength_loop]. destruct (Z.ltb_spec 0 k); [lia|].
    split; reflexivity.
  - intros Hpos Htot.
    assert (Hall : Forall (fun p => 0 < phaseLength p) (phases s)).
    { apply Forall_forall. intros p Hp. rewrite forallb_forall in Hpos.
      apply Z.ltb_lt, Hpos. now apply list_elem_of_In. }
    assert (Hgen : forall ps k acc,
              Forall (fun p => 0 < phaseLength p) ps -> totalLength ps <= k ->
              splitScriptByLength_loop k acc ps = (acc ++ ps, [])).
    { clear. induction ps as [|p ps IH]; intros k acc Hps Hk.
      - cbn. now rewrite app_nil_r.
      - inversion Hps as [|? ? Hp Hps']; subst. cbn [totalLength foldr] in Hk.
        fold (totalLength ps) in Hk.
        assert (0 <= totalLength ps).
        { clear -Hps'. induction Hps' as [|q qs Hq _ IH]; cbn; [lia|].
          fold (totalLength qs). lia. }
        cbn [splitScriptByLength_loop].
        destruct (Z.ltb_spec 0 k); [|lia].
        destruct (Z.ltb_spec k (phaseLength p)); [lia|].
        rewrite IH by (assumption || lia). now rewrite <- app_assoc. }
    unfold splitScriptByLength. rewrite (Hgen (phases s) k [] Hall Htot).
    split; reflexivity.
Qed.

Lemma splitScriptByLength_edges_witness :
  (300 <= 0 ->
   phases (splitScriptByLength tenPhases 300).1 = [] /\
   phases (splitScriptByLength tenPhases 300).2 = phases tenPhases) /\
  (forallb (fun p => 0 <? phaseLength p) (phases tenPhases) = true ->
   totalLength (phases tenPhases) <= 300 ->
   phases (splitScriptByLength tenPhases 300).1 = phases tenPhases /\
   phases (splitScriptByLength tenPhases 300).2 = []).
Proof. apply (splitScriptByLength_edges tenPhases 300). Defined.

Lemma splitScriptByLength_loop_valid (ps : list phase) :
  forall (k : Z) (acc : list phase),
    Forall (fun p => validPhase p = true) ps ->
    Forall (fun p => validPhase p = true) acc ->
    Forall (fun p => validPhase p = true) (splitScriptByLength_loop k acc ps).1 /\
    Forall (fun p => validPhase p = true) (splitScriptByLength_loop k acc ps).2.
Proof.
  induction ps as [|p ps IH]; intros k acc Hps Hacc; cbn [splitScriptByLength_loop].
  - split; [assumption|constructor].
  - inversion Hps as [|? ? Hp Hps']; subst.
    destruct (Z.ltb_spec 0 k); [|split; assumption].
    destruct (Z.ltb_spec k (phaseLength p)).
    + assert (Hparts : validPhase (splitPhaseByLength p k).1 = true /\
                       validPhase (splitPhaseByLength p k).2 = true).
      { unfold validPhase in Hp. destruct (classify p) as [sh|] eqn:Hsh; [|discriminate].
        destruct (splitPhaseByLength_shapes p k sh Hsh Hp)
          as (sh1 & sh2 & Hc & Hr & V1 & V2 & _).
        - rewrite <- (phaseLength_classify p sh Hsh). lia.
        - unfold validPhase. rewrite Hc, Hr. split; assumption. }
      destruct Hparts as [Hc Hr]. cbn [fst snd]. split.
      * apply Forall_app; split; [assumption|]. constructor; [exact Hc|constructor].
      * constructor; assumption.
    + apply IH; [assumption|].
      apply Forall_app; split; [assumption|]. constructor; [exact Hp|constructor].
Qed.

(** X14. A length split of a script of valid phases gives two scripts of
    valid phases: a peer that receives either part finds phases of the
    four shapes with positive lengths again. *)
Theorem splitScriptByLength_valid (s : script) (k : Z) :
  validPhases s = true ->
  validPhases (splitScriptByLength s k).1 = true /\
  validPhases (splitScriptByLength s k).2 = true.
Proof.
  intros Hv. unfold validPhases in Hv.
  assert (Hps : Forall (fun p => validPhase p = true) (phases s)).
  { unfold phases. destruct (config_phases s) as [ps|]; [|discriminate].
    apply Forall_forall. intros p Hp. rewrite forallb_forall in Hv.
    apply Hv. now apply list_elem_of_In. }
  destruct (splitScriptByLength_loop_valid (phases s) k [] Hps (Forall_nil_2 _))
    as [Hc Hr].
  unfold splitScriptByLength, validPhases.
  cbn [fst snd config_phases set_phases].
  split; apply forallb_forall; intros p Hp; apply list_elem_of_In in Hp.
  - rewrite Forall_forall in Hc. now apply Hc.
  - rewrite Forall_forall in Hr. now apply Hr.
Qed.

Lemma splitScriptByLength_valid_witness :
  validPhases (splitScriptByLength rampScript 130).1 = true /\
  validPhases (splitScriptByLength rampScript 130).2 = true.
Proof. apply (splitScriptByLength_valid rampScript 130). reflexivity. Defined.

(** ** Lines and their intersection *)


Lemma Math_round_exact (n m : Z) :
  m <> 0 -> Math_round (inject_Z (m * n) / inject_Z m) = n.
Proof.
  intros Hm.
  assert (Hmq : ~ (inject_Z m == 0)%Q).
  { intros E. apply Hm. now apply (inject_Z_injective m 0). }
  assert (E : (inject_Z (m * n) / inject_Z m == inject_Z n)%Q).
  { rewrite inject_Z_mult. field. exact Hmq. }
  assert (Hb : n <= Math_round (inject_Z (m * n) / inject_Z m) <= n).
  { apply Math_round_bounds. rewrite E. split; apply Qle_refl. }
  lia.
Qed.

(** X16. [intersect] throws exactly on parallel lines (determinant [0]);
    otherwise it returns a point, and when both quotients of Cramer's
    rule are whole numbers, so that nothing is rounded away, that point
    lies on both lines. *)
Theorem intersect_cramer (l1 l2 : line) :
  let det := A l1 * B l2 - A l2 * B l1 in
  (det = 0 ->
   intersect l1 l2 = Throw "Parallel lines never intersect, detect and avoid this case") /\
  (det <> 0 ->
   exists i, intersect l1 l2 = Ok i /\
     ((det | B l2 * C l1 - B l1 * C l2) -> (det | A l1 * C l2 - A l2 * C l1) ->
      A l1 * x i + B l1 * y i = C l1 /\ A l2 * x i + B l2 * y i = C l2)).
Proof.
  intros det. unfold intersect. fold det. split.
  - intros ->. reflexivity.
  - intros Hdet. destruct (Z.eqb_spec det 0) as [|_]; [contradiction|].
    eexists. split; [reflexivity|]. cbn [x y].
    intros [qx Hx] [qy Hy]. rewrite Hx, Hy, !(Z.mul_comm _ det).
    rewrite !Math_round_exact by exact Hdet.
    rewrite (Z.mul_comm qx) in Hx. rewrite (Z.mul_comm qy) in Hy.
    split; apply (Z.mul_reg_l _ _ det Hdet).
    + transitivity (A l1 * (det * qx) + B l1 * (det * qy)); [ring|].
      rewrite <- Hx, <- Hy. unfold det. ring.
    + transitivity (A l2 * (det * qx) + B l2 * (det * qy)); [ring|].
      rewrite <- Hx, <- Hy. unfold det. ring.
Qed.




Lemma intersect_cramer_witness :
  let l1 := abc {| x := 0; y := 0 |} {| x := 2; y := 2 |} in
  let l2 := abc {| x := 0; y := 1 |} {| x := 2; y := 1 |} in
  let det := A l1 * B l2 - A l2 * B l1 in
  (det = 0 ->
   intersect l1 l2 = Throw "Parallel lines never intersect, detect and avoid this case") /\
  (det <> 0 ->
   exists i, intersect l1 l2 = Ok i /\
     ((det | B l2 * C l1 - B l1 * C l2) -> (det | A l1 * C l2 - A l2 * C l1) ->
      A l1 * x i + B l1 * y i = C l1 /\ A l2 * x i + B l2 * y i = C l2)).
Proof.
  apply (intersect_cramer (abc {| x := 0; y := 0 |} {| x := 2; y := 2 |})
           (abc {| x := 0; y := 1 |} {| x := 2; y := 1 |})).
Defined.

(** ** Sub-phases *)

(** X18. [copyOverwritePush] appends exactly one phase and leaves the
    array before it alone; the new phase has each of the five shape
    fields as given ([null] meaning absent) and every other attribute as
    in the phase it copies. *)
Theorem copyOverwritePush_appends (arr : list phase) (p : phase)
    (ac ar rt du pa : option Z) :
  exists q,
    copyOverwritePush arr p ac ar rt du pa = arr ++ [q] /\
    q !! "arrivalCount" = ac /\ q !! "arrivalRate" = ar /\ q !! "rampTo" = rt /\
    q !! "duration" = du /\ q !! "pause" = pa /\
    (forall f, isShapeField f = false -> q !! f = p !! f).
Proof.
  exists (built p ac ar rt du pa). split; [reflexivity|].
  destruct (built_lookup p ac ar rt du pa) as (H1 & H2 & H3 & H4 & H5).
  repeat (split; [assumption|]).
  intros f Hf. apply isShapeField_false in Hf as (F1 & F2 & F3 & F4 & F5).
  unfold built. now rewrite !overWrite_lookup_ne by congruence.
Qed.


Lemma dropFlatRamp_other_fields (p : phase) (f : string) :
  f <> "rampTo" -> dropFlatRamp p !! f = p !! f.
Proof.
  intros Hf. unfold dropFlatRamp.
  destruct (p !! "rampTo"), (p !! "arrivalRate"); try reflexivity.
  destruct (_ =? _); [|reflexivity]. now apply lookup_delete_ne.
Qed.









(** ** Time and width across a width split *)

Lemma phaseLength_built (p : phase) (ac ar rt du pa : option Z) :
  phaseLength (built p ac ar rt du pa) =
  match du, pa with
  | Some d, _ => d
  | None, Some z => z
  | None, None => -1
  end.
Proof.
  destruct (built_lookup p ac ar rt du pa) as (_ & _ & _ & H4 & H5).
  unfold phaseLength. rewrite H4, H5. reflexivity.
Qed.

Lemma lengthOf_norm (sh : shape) : lengthOf (normShape sh) = lengthOf sh.
Proof. destruct sh; cbn; try reflexivity. now destruct (_ =? _). Qed.

Lemma splitPhaseByWidth_parts_lengths (p : phase) (sh : shape) (c : Z) (ph : parts) :
  classify p = Some sh ->
  splitPhaseByWidth_parts p c = Ok ph ->
  totalLength (chunk ph) = lengthOf sh /\ totalLength (remainder ph) = lengthOf sh.
Proof.
  intros Hc. apply classify_fields in Hc.
  unfold splitPhaseByWidth_parts, get, addRamp, addArrivalRate, addArrivalCount, addPause,
    mbind, result_bind.
  destruct sh; destruct Hc as (H1 & H2 & H3 & H4 & H5);
    rewrite ?H1, ?H2, ?H3, ?H4, ?H5; intros H.
  all: repeat (match type of H with
               | context [match ?t with _ => _ end] => destruct t eqn:?
               | context [if ?t then _ else _] => destruct t eqn:?
               end; try discriminate H).
  all: injection H as <-; cbn [chunk remainder].
  all: rewrite !copyOverwritePush_built; cbn [app totalLength foldr lengthOf].
  all: rewrite !phaseLength_built; split; lia.
Qed.

(** X20. The two sides [splitPhaseByWidth] returns for a phase of one of
    the four shapes last as long as the phase, whatever the ceiling: width
    is taken away, time is not. *)
Theorem splitPhaseByWidth_keeps_length (p : phase) (c : Z) (ph : parts) :
  is_Some (classify p) ->
  (splitPhaseByWidth p c).2 = Ok ph ->
  totalLength (chunk ph) = phaseLength p /\ totalLength (remainder ph) = phaseLength p.
Proof.
  intros [sh Hc] H. cbn [splitPhaseByWidth snd] in H.
  rewrite (phaseLength_classify _ _ Hc), <- (lengthOf_norm sh).
  apply (splitPhaseByWidth_parts_lengths (dropFlatRamp p) _ c); [|exact H].
  now apply classify_dropFlatRamp.
Qed.

Lemma splitPhaseByWidth_keeps_length_witness :
  totalLength [ramp 1 25 50; constantRate 25 50] = phaseLength (ramp 0 50 100) /\
  totalLength [pauseFor 50; ramp 1 25 50] = phaseLength (ramp 0 50 100).
Proof.
  apply (splitPhaseByWidth_keeps_length (ramp 0 50 100) 25
           {| chunk := [ramp 1 25 50; constantRate 25 50];
              remainder := [pauseFor 50; ramp 1 25 50] |}).
  - exists (Ramp 0 50 100). vm_compute. reflexivity.
  - vm_compute. reflexivity.
Defined.










(** X23. What [splitPhaseByWidth] does to the phase it is handed: it
    changes it only when [rampTo] and [arrivalRate] are both there and
    equal, it never touches a field other than [rampTo], and a second call
    on the same phase changes nothing more. *)
Theorem splitPhaseByWidth_leaves_input (p : phase) (c c' : Z) :
  ((splitPhaseByWidth p c).1 = p <->
   ~ (exists v, p !! "rampTo" = Some v /\ p !! "arrivalRate" = Some v)) /\
  (forall f, f <> "rampTo" -> (splitPhaseByWidth p c).1 !! f = p !! f) /\
  (splitPhaseByWidth (splitPhaseByWidth p c).1 c').1 = (splitPhaseByWidth p c).1.
Proof.
  cbn [splitPhaseByWidth fst]. split; [|split].
  - unfold dropFlatRamp.
    destruct (p !! "rampTo") as [r|] eqn:Hr; [|split; [intros _ (v & ? & _); discriminate|reflexivity]].
    destruct (p !! "arrivalRate") as [a|] eqn:Ha; [|split; [intros _ (v & _ & ?); discriminate|reflexivity]].
    destruct (Z.eqb_spec r a) as [->|Hne].
    + split.
      * intros E. rewrite <- E, lookup_delete_eq in Hr. discriminate Hr.
      * intros H. exfalso. apply H. now exists a.
    + split; [|reflexivity]. intros _ (v & [= ->] & [= ->]). now apply Hne.
  - intros f. apply dropFlatRamp_other_fields.
  - assert (forall q, q !! "rampTo" = None -> dropFlatRamp q = q) as Hnone.
    { intros q Hq. unfold dropFlatRamp. now rewrite Hq. }
    destruct (p !! "rampTo") as [r|] eqn:Hr;
      [|rewrite (Hnone p Hr); exact (Hnone p Hr)].
    destruct (p !! "arrivalRate") as [a|] eqn:Ha.
    + destruct (Z.eqb_spec r a) as [->|Hne].
      * rewrite (dropFlatRamp_flat p a Hr Ha). apply Hnone, lookup_delete_eq.
      * assert (dropFlatRamp p = p) as E.
        { unfold dropFlatRamp. rewrite Hr, Ha.
          destruct (Z.eqb_spec r a); [contradiction|reflexivity]. }
        now rewrite !E.
    + assert (dropFlatRamp p = p) as E.
      { unfold dropFlatRamp. now rewrite Hr, Ha. }
      now rewrite !E.
Qed.

(** ** The orchestrator and its counter *)

Lemma completions_count (n : nat) :
  forall (t : Z) (r : nat),
    completions n t r =
    (t - Z.of_nat n, (r + Z.to_nat (Z.of_nat n - Z.max t 1 + 1))%nat).
Proof.
  induction n as [|n IH]; intros t r.
  - cbn [completions]. f_equal; lia.
  - cbn [completions complete]. rewrite IH.
    destruct (Z.ltb_spec 0 (t - 1)); cbn [negb]; f_equal; lia.
Qed.

(** X24. The counter behind the [complete] closure: after [n] calls from
    a count of [toComplete] it stands at [toComplete - n], and the callback
    of the invocation has been called once for every call from the
    [toComplete]-th on, so exactly once only when [n] is [toComplete] (or
    [1], for a count below [1]). *)
Theorem completions_reports (n : nat) (toComplete : Z) :
  completions n toComplete 0 =
    (toComplete - Z.of_nat n,
     Z.to_nat (Z.of_nat n - Z.max toComplete 1 + 1)) /\
  ((completions n toComplete 0).2 = 1%nat <-> Z.of_nat n = Z.max toComplete 1).
Proof.
  rewrite completions_count. cbn [snd]. split; [reflexivity|]. lia.
Qed.

(** X25. A valid script within both chunk limits is neither split nor
    handed to a peer: [run] passes it to the load generator with its
    phases and settings as they are, [_genesis] set if it was not, and
    [_start] set to the clock reading unless it has one. *)
Theorem run_within_limits_is_leaf (Date_now : nat -> Z) (fuel tick : nat) (s : script) :
  (validScript s).1 = true ->
  scriptLength s <= maxChunkDurationInSeconds (getSettings s) ->
  (scriptWidth s <= inject_Z (maxChunkRequestsPerSecond (getSettings s)))%Q ->
  exists s',
    run Date_now (S fuel) tick s = Leaf (Date_now tick) s' /\
    phases s' = phases s /\ _split s' = _split s /\
    _genesis s' = genesisAfter Date_now tick s /\
    _start s' = (if truthy (_start s) then _start s else Some (Date_now tick)).
Proof.
  intros Hv Hl Hw. rewrite run_unfold. cbv zeta. rewrite Hv.
  destruct (Z.ltb_spec (maxChunkDurationInSeconds (getSettings s)) (scriptLength s));
    [lia|].
  destruct (Qlt_le_dec _ _) as [Hlt|_]; [exfalso; lra|].
  eexists. split; [reflexivity|].
  rewrite start_unless_set_phases, assignGenesis_phases.
  destruct (assignGenesis_split (Date_now tick) s) as [Hsp Hst].
  pose proof (assignGenesis_genesis Date_now tick s) as Hg.
  rewrite Hst. destruct (truthy (_start s)); cbn [set_start _split _genesis _start];
    auto.
Qed.

Lemma run_within_limits_is_leaf_witness :
  exists s',
    run (fun _ => 1000) 1 0 twoMinutes = Leaf 1000 s' /\
    phases s' = phases twoMinutes /\ _split s' = _split twoMinutes /\
    _genesis s' = genesisAfter (fun _ => 1000) 0 twoMinutes /\
    _start s' = (if truthy (_start twoMinutes) then _start twoMinutes else Some 1000).
Proof.
  apply (run_within_limits_is_leaf (fun _ => 1000) 0 0 twoMinutes);
    vm_compute; [reflexivity|discriminate|discriminate].
Defined.

Lemma lengthParts_chunk (timeNow : Z) (cfg : settings) (s : script) :
  phases (lengthParts timeNow cfg s).1 =
    (splitScriptByLength_loop (maxChunkDurationInSeconds cfg) [] (phases s)).1 /\
  _split (lengthParts timeNow cfg s).1 = _split s.
Proof.
  unfold lengthParts, splitScriptByLength. cbn [fst snd].
  destruct (truthy (_start (set_phases _ s))); split; reflexivity.
Qed.




Lemma splitScriptByWidth_attributes (s : script) (c : Z) (ph : script_parts) :
  (splitScriptByWidth s c).2 = Ok ph ->
  (_start (chunk_script ph) = _start s /\ _split (chunk_script ph) = _split s) /\
  (_start (remainder_script ph) = _start s /\ _split (remainder_script ph) = _split s).
Proof.
  unfold splitScriptByWidth.
  destruct (splitScriptByWidth_loop (phases s) c [] []) as [ps' [parts| | |]];
    cbn [snd mbind result_bind]; try discriminate.
  intros [= <-]. repeat split.
Qed.

Lemma widthLoop_siblings (fuel : nat) :
  forall (s : script) (cfg : settings) (sent sent' : list dispatch),
    let P := fun d : dispatch =>
      _start (event d) = _start s /\ _split (event d) = _split s /\
      fireAt d = (fun t => t - timeBufferInMilliseconds cfg) <$> _start s in
    Forall P sent -> widthLoop fuel s cfg sent = Ok sent' -> Forall P sent'.
Proof.
  induction fuel as [|fuel IH]; intros s cfg sent sent' P Hsent; cbn [widthLoop];
    [discriminate|].
  destruct ((splitScriptByWidth s (maxChunkRequestsPerSecond cfg)).2)
    as [ph| | |] eqn:Hsplit; cbn [mbind result_bind]; try discriminate.
  destruct (splitScriptByWidth_attributes _ _ _ Hsplit) as [[Hc1 Hc2] [Hr1 Hr2]].
  assert (Forall P (sent ++ [send (timeBufferInMilliseconds cfg) (chunk_script ph)]))
    as Hsent'.
  { apply Forall_app; split; [assumption|]. constructor; [|constructor].
    unfold P, send. cbn [event fireAt]. now rewrite Hc1, Hc2. }
  destruct (Qlt_le_dec 0 (scriptWidth (remainder_script ph))).
  - intros Hloop. apply IH in Hloop.
    + eapply Forall_impl; [exact Hloop|]. unfold P. cbv beta. rewrite Hr1, Hr2. tauto.
    + eapply Forall_impl; [exact Hsent'|]. unfold P. cbv beta. rewrite Hr1, Hr2. tauto.
  - intros [= <-]. exact Hsent'.
Qed.

(** X27. The chunks of the width branch run side by side: every script
    [run] dispatches there carries the same [_start], the one the script
    came with or else the clock reading plus the time buffer, the same
    [_split], and is sent for the same moment, the time buffer before that
    start. *)
Theorem run_width_branch_same_start
    (Date_now : nat -> Z) (fuel tick : nat) (s : script) (n : Z) (sent : list dispatch) :
  run Date_now fuel tick s = WidthDispatched n sent ->
  exists t,
    Some t = (if truthy (_start s) then _start s
              else Some (Date_now tick + timeBufferInMilliseconds (getSettings s))) /\
    Forall (fun d =>
              _start (event d) = Some t /\ _split (event d) = _split s /\
              fireAt d = Some (t - timeBufferInMilliseconds (getSettings s))) sent.
Proof.
  intros Hrun. destruct fuel as [|fuel]; [discriminate Hrun|].
  rewrite run_unfold in Hrun. cbv zeta in Hrun.
  destruct (validScript s).1; [|discriminate Hrun].
  destruct (_ <? _); [destruct (Qlt_le_dec _ _); discriminate Hrun|].
  destruct (Qlt_le_dec _ _); [|discriminate Hrun].
  destruct (widthLoop _ _ _ _) as [l| | |] eqn:Hloop; try discriminate Hrun.
  assert (l = sent) as -> by congruence. clear Hrun.
  apply widthLoop_siblings in Hloop; [|constructor]. cbv beta zeta in Hloop.
  destruct (assignGenesis_split (Date_now tick) s) as [Hsp Hst].
  rewrite Hst in Hloop.
  destruct (truthy (_start s)) eqn:Ht.
  - destruct (_start s) as [t|] eqn:Hs; [|discriminate Ht].
    exists t. split; [reflexivity|].
    eapply Forall_impl; [exact Hloop|]. cbv beta. rewrite Hst, Hsp. tauto.
  - eexists. split; [reflexivity|].
    eapply Forall_impl; [exact Hloop|]. cbv beta.
    cbn [set_start _start _split fmap option_fmap option_map]. rewrite Hsp. tauto.
Qed.

Lemma run_width_branch_same_start_witness :
  exists t,
    Some t = (if truthy (_start wideScript) then _start wideScript
              else Some (1000 + timeBufferInMilliseconds (getSettings wideScript))) /\
    Forall (fun d =>
              _start (event d) = Some t /\ _split (event d) = _split wideScript /\
              fireAt d = Some (t - timeBufferInMilliseconds (getSettings wideScript)))
      (replicate 4
         (invokeSelf (Some 1000)
            (mkScript None (Some [constantRate 25 60]) (Some 1000) (Some 16000) false))).
Proof.
  apply (run_width_branch_same_start (fun _ => 1000) 5 0 wideScript 4).
  vm_compute. reflexivity.
Defined.




Lemma widthLoop_does_not_throw (cfg : settings) (fuel : nat) :
  1 <= maxChunkRequestsPerSecond cfg ->
  forall (s : script) (sent : list dispatch),
    Forall (okPhase (maxChunkRequestsPerSecond cfg)) (phases s) ->
    widthLoop fuel s cfg sent = OutOfFuel \/
    exists sent', widthLoop fuel s cfg sent = Ok sent'.
Proof.
  intros Hc. induction fuel as [|fuel IH]; intros s sent Hok; cbn [widthLoop];
    [now left|].
  destruct (splitScriptByWidth_ok _ s Hc Hok) as (ph & E & _ & _ & _ & Hrem & _).
  rewrite E. cbn [snd mbind result_bind].
  destruct (Qlt_le_dec 0 (scriptWidth (remainder_script ph))).
  - apply IH, Hrem.
  - right. eexists. reflexivity.
Qed.

Lemma lengthParts_chunk_valid (timeNow : Z) (cfg : settings) (s : script) :
  validPhases s = true -> validPhases (lengthParts timeNow cfg s).1 = true.
Proof.
  intros Hv.
  assert (Forall (fun p => validPhase p = true) (phases s)) as Hps.
  { unfold validPhases, phases in *. destruct (config_phases s) as [ps|]; [|discriminate].
    apply Forall_forall. intros p Hp. rewrite forallb_forall in Hv.
    now apply Hv, list_elem_of_In. }
  destruct (splitScriptByLength_loop_valid (phases s) (maxChunkDurationInSeconds cfg) []
              Hps ltac:(constructor)) as [Hc _].
  assert (validPhases (lengthParts timeNow cfg s).1 =
          forallb validPhase
            (splitScriptByLength_loop (maxChunkDurationInSeconds cfg) [] (phases s)).1)
    as E.
  { unfold lengthParts, splitScriptByLength. cbn [fst snd].
    destruct (truthy _); reflexivity. }
  rewrite E. apply forallb_forall. intros p Hp.
  rewrite Forall_forall in Hc. now apply Hc, list_elem_of_In.
Qed.

(** X29. [run] does not throw on a script of valid phases whose chunk
    ceiling is at least [1]: neither the call nor the nested call of the
    length branch ends in an exception of [intersect] or in a read of a
    field that is not there. *)
Theorem run_does_not_throw (Date_now : nat -> Z) (fuel : nat) :
  forall (tick : nat) (s : script),
    validPhases s = true ->
    1 <= maxChunkRequestsPerSecond (getSettings s) ->
    threw (run Date_now fuel tick s) = false.
Proof.
  induction fuel as [|fuel IH]; intros tick s Hv Hc; [reflexivity|].
  rewrite run_unfold. cbv zeta.
  destruct (validScript s).1; [|reflexivity].
  destruct (assignGenesis_split (Date_now tick) s) as [Hsp _].
  destruct (_ <? _).
  - destruct (Qlt_le_dec _ _); [|reflexivity]. cbn [threw].
    apply IH.
    + apply lengthParts_chunk_valid.
      unfold validPhases, assignGenesis in *.
      destruct (truthy (_genesis s)); [exact Hv|exact Hv].
    + rewrite (getSettings_split _ s); [exact Hc|].
      now rewrite (proj2 (lengthParts_chunk _ _ _)).
  - destruct (Qlt_le_dec _ _); [|reflexivity].
    set (s2 := if truthy _ then _ else _).
    destruct (widthLoop_does_not_throw (getSettings s) fuel Hc s2 []) as [E|[l E]].
    + unfold s2. rewrite start_unless_set_phases, assignGenesis_phases.
      now apply validPhases_ok.
    + now rewrite E.
    + now rewrite E.
Qed.

Lemma run_does_not_throw_witness :
  threw (run (fun _ => 1000) 6 0 longAndWide) = false.
Proof.
  apply (run_does_not_throw (fun _ => 1000) 6 0 longAndWide).
  - reflexivity.
  - vm_compute. discriminate.
Defined.
